(** * The validated content-API boundary of the AR Automation site

    A shallow embedding of the two boundary components of the repository:

    - the environment validation [envSchema] / [env] (lib/env.ts), and
    - the content-API clients: the schema-validated [fetchFromStrapi]
      (lib/strapi.ts of the project guide) and the plain helper [fetchAPI]
      (frontend/lib/strapi.ts),

    together with the zod schemas they use ([ContentIdSchema],
    [articleSchema], [strapiCollectionSchema], [strapiSingleSchema]).

    JavaScript values are modelled as a tree type whose objects are finite
    maps, zod schemas as a syntax tree interpreted by [_parse], and the
    asynchronous, effectful clients as programs of a small state-and-
    exception monad over a world that records the requests issued and the
    console output. *)

From stdpp Require Import base option list gmap strings pretty.
From Stdlib Require Import Ascii QArith Qround.

#[local] Set Warnings "-register-all".
Local Open Scope string_scope.
Local Open Scope list_scope.
Local Open Scope Z_scope.

(** ** JavaScript values *)

(** The values a response body, [process.env] or a parse result can hold.
    Objects are string-keyed maps; a property that is present with the value
    [undefined] is distinct from an absent one, as in JavaScript. Numbers
    are rationals: the code tests that a value is a number and never
    computes with one. *)
Inductive jsval :=
| JUndefined
| JNull
| JBool (b : bool)
| JNum (q : Q)
| JStr (s : string)
| JArr (items : list jsval)
| JObj (props : gmap string jsval).

Definition JInt (z : Z) : jsval := JNum (inject_Z z).

(** [o[key]]: reading an absent property gives [undefined]. *)
Definition get_prop (o : gmap string jsval) (key : string) : jsval :=
  default JUndefined (o !! key).

(** [key in o]. *)
Definition has_prop (o : gmap string jsval) (key : string) : bool :=
  bool_decide (is_Some (o !! key)).

(** zod's [ZodParsedType], restricted to the values above. *)
Inductive ZodParsedType :=
| PT_undefined | PT_null | PT_boolean | PT_number | PT_string | PT_array | PT_object.

Definition getParsedType (v : jsval) : ZodParsedType :=
  match v with
  | JUndefined => PT_undefined
  | JNull => PT_null
  | JBool _ => PT_boolean
  | JNum _ => PT_number
  | JStr _ => PT_string
  | JArr _ => PT_array
  | JObj _ => PT_object
  end.

(** ** zod schemas *)

(** The string refinements the schemas use: [.uuid()], [.datetime()],
    [.url()]. *)
Inductive string_check := CheckUuid | CheckDatetime | CheckUrl.

(** The tests behind the three refinements belong to the zod package (two
    regular expressions and the platform's [new URL]); the development is
    parametric in them. *)
Class StringFormats := {
  uuid_test : string → bool;
  datetime_test : string → bool;
  url_test : string → bool;
}.

Definition check_test `{StringFormats} (c : string_check) (s : string) : bool :=
  match c with
  | CheckUuid => uuid_test s
  | CheckDatetime => datetime_test s
  | CheckUrl => url_test s
  end.

(** The constructors of the schemas the sources parse external data with
    ([envSchema], [ContentIdSchema], [articleSchema], the two envelope
    schemas and [z.unknown()]): strings with the three refinements, numbers,
    enums, [z.unknown()], [.optional()], [.brand()], arrays and plain
    [z.object(...)]. Schemas that transform or coerce a value, and objects
    made [.strict()] or [.passthrough()], occur nowhere in the sources and
    are not schemas of this type: a statement for every [zschema] is a
    statement for the schemas built from these constructors. *)
Inductive zschema :=
| ZString (checks : list string_check)
| ZNumber
| ZEnum (values : list string)
| ZUnknown
| ZOptional (inner : zschema)
| ZBranded (brand : string) (inner : zschema)
| ZArray (item : zschema)
| ZObject (shape : list (string * zschema)).

(** A step of an issue path: a property name or an array index. *)
Inductive path_elem := PKey (k : string) | PIdx (i : nat).

Inductive expected_type :=
| ExpType (t : ZodParsedType)
| ExpOneOf (values : list string).

Inductive issue_code :=
| invalid_type (expected : expected_type) (received : ZodParsedType)
| invalid_string (validation : string_check)
| invalid_enum_value (options : list string) (received : string).

Record ZodIssue := mkIssue { issue_path : list path_elem; issue_kind : issue_code }.

(** Outcome of a [_parse] call: zod's [OK], [DIRTY] and [INVALID]. *)
Inductive ParseReturn :=
| OK (value : jsval)
| DIRTY (value : jsval)
| INVALID.

Definition is_undefined (v : jsval) : bool :=
  match v with JUndefined => true | _ => false end.

(** A parsed property of an object: its key, the outcome of its validator,
    and whether the key is present in the input ([alwaysSet]). *)
Record ObjectPair := mkPair {
  pair_key : string;
  pair_value : ParseReturn;
  pair_alwaysSet : bool;
}.

(** [ParseStatus.mergeObjectSync]: an aborted value aborts the object, a
    dirty one makes it dirty, and a value is stored unless it is [undefined]
    for a key the input does not have. *)
Fixpoint mergeObjectSync (dirty : bool) (finalObject : gmap string jsval)
    (pairs : list ObjectPair) : ParseReturn :=
  match pairs with
  | [] => if dirty then DIRTY (JObj finalObject) else OK (JObj finalObject)
  | p :: rest =>
      let store v :=
        if negb (is_undefined v) || pair_alwaysSet p
        then <[pair_key p := v]> finalObject else finalObject in
      match pair_value p with
      | INVALID => INVALID
      | DIRTY v => mergeObjectSync true (store v) rest
      | OK v => mergeObjectSync dirty (store v) rest
      end
  end.

(** [ParseStatus.mergeArray]. *)
Fixpoint mergeArray (dirty : bool) (arrayValue : list jsval)
    (results : list ParseReturn) : ParseReturn :=
  match results with
  | [] => if dirty then DIRTY (JArr arrayValue) else OK (JArr arrayValue)
  | INVALID :: _ => INVALID
  | DIRTY v :: rest => mergeArray true (arrayValue ++ [v]) rest
  | OK v :: rest => mergeArray dirty (arrayValue ++ [v]) rest
  end.

(** The issues a string's refinements add, in the order of the checks. *)
Definition string_issues `{StringFormats} (path : list path_elem)
    (checks : list string_check) (s : string) : list ZodIssue :=
  omap (λ c, if check_test c s then None else Some (mkIssue path (invalid_string c))) checks.

Section parse.
Context `{StringFormats}.

(** [schema._parse(input)]: the issues it adds to the context, and its
    outcome. [path] is the path of the input within the parsed value. *)
Fixpoint _parse (schema : zschema) (path : list path_elem) (data : jsval)
    : list ZodIssue * ParseReturn :=
  match schema with
  | ZString checks =>
      match data with
      | JStr s =>
          let issues := string_issues path checks s in
          (issues, if issues is [] then OK data else DIRTY data)
      | _ => ([mkIssue path (invalid_type (ExpType PT_string) (getParsedType data))], INVALID)
      end
  | ZNumber =>
      match data with
      | JNum _ => ([], OK data)
      | _ => ([mkIssue path (invalid_type (ExpType PT_number) (getParsedType data))], INVALID)
      end
  | ZEnum values =>
      match data with
      | JStr s =>
          if bool_decide (s ∈ values) then ([], OK data)
          else ([mkIssue path (invalid_enum_value values s)], INVALID)
      | _ => ([mkIssue path (invalid_type (ExpOneOf values) (getParsedType data))], INVALID)
      end
  | ZUnknown => ([], OK data)
  | ZOptional inner =>
      match data with
      | JUndefined => ([], OK JUndefined)
      | _ => _parse inner path data
      end
  | ZBranded _ inner => _parse inner path data
  | ZArray item =>
      match data with
      | JArr items =>
          let results := imap (λ i x, _parse item (path ++ [PIdx i]) x) items in
          (concat (fst <$> results), mergeArray false [] (snd <$> results))
      | _ => ([mkIssue path (invalid_type (ExpType PT_array) (getParsedType data))], INVALID)
      end
  | ZObject shape =>
      match data with
      | JObj o =>
          let parse_shape := fix parse_shape (shape : list (string * zschema))
              : list ZodIssue * list ObjectPair :=
            match shape with
            | [] => ([], [])
            | (key, keyValidator) :: rest =>
                let value := _parse keyValidator (path ++ [PKey key]) (get_prop o key) in
                let pairs := parse_shape rest in
                (value.1 ++ pairs.1, mkPair key value.2 (has_prop o key) :: pairs.2)
            end in
          let pairs := parse_shape shape in
          (pairs.1, mergeObjectSync false ∅ pairs.2)
      | _ => ([mkIssue path (invalid_type (ExpType PT_object) (getParsedType data))], INVALID)
      end
  end.

(** The loop of [ZodObject._parse] over the keys of the shape, as a
    function of its own (it is the local [parse_shape] of [_parse]). *)
Fixpoint parse_shape (o : gmap string jsval) (path : list path_elem)
    (shape : list (string * zschema)) : list ZodIssue * list ObjectPair :=
  match shape with
  | [] => ([], [])
  | (key, keyValidator) :: rest =>
      let value := _parse keyValidator (path ++ [PKey key]) (get_prop o key) in
      let pairs := parse_shape o path rest in
      (value.1 ++ pairs.1, mkPair key value.2 (has_prop o key) :: pairs.2)
  end.

(** [schema.safeParse(data)]: the value when the outcome is valid, the
    collected issues otherwise. *)
Definition safeParse (schema : zschema) (data : jsval) : list ZodIssue + jsval :=
  match _parse schema [] data with
  | (_, OK value) => inr value
  | (issues, _) => inl issues
  end.
End parse.

(** ** The schemas of the sources *)

(** lib/env.ts *)
Definition envSchema : zschema :=
  ZObject [
    ("NODE_ENV", ZEnum ["development"; "test"; "production"]);
    ("NEXT_PUBLIC_STRAPI_URL", ZString [CheckUrl]);
    ("STRAPI_API_TOKEN", ZOptional (ZString []))
  ].

(** types/strapi.ts *)
Definition ContentIdSchema : zschema := ZBranded "ContentId" (ZString [CheckUuid]).

Definition articleSchema : zschema :=
  ZObject [
    ("id", ContentIdSchema);
    ("attributes", ZObject [
      ("title", ZString []);
      ("content", ZString []);
      ("slug", ZString []);
      ("publishedAt", ZString [CheckDatetime]);
      ("createdAt", ZString [CheckDatetime]);
      ("updatedAt", ZString [CheckDatetime])
    ])
  ].

Definition paginationSchema : zschema :=
  ZObject [
    ("page", ZNumber);
    ("pageSize", ZNumber);
    ("pageCount", ZNumber);
    ("total", ZNumber)
  ].

Definition strapiCollectionSchema (itemSchema : zschema) : zschema :=
  ZObject [
    ("data", ZArray itemSchema);
    ("meta", ZObject [("pagination", paginationSchema)])
  ].

Definition strapiSingleSchema (itemSchema : zschema) : zschema :=
  ZObject [
    ("data", itemSchema);
    ("meta", ZObject [])
  ].

(** ** A concrete instance of the string tests *)

Module Formats.

Inductive cclass := Hex | Digit | Lit (c : ascii).

Definition is_digit (c : ascii) : bool :=
  let n := nat_of_ascii c in ((48 <=? n) && (n <=? 57))%nat.

Definition is_hex (c : ascii) : bool :=
  let n := nat_of_ascii c in
  (is_digit c || ((65 <=? n) && (n <=? 70)) || ((97 <=? n) && (n <=? 102)))%nat.

Definition in_class (k : cclass) (c : ascii) : bool :=
  match k with
  | Hex => is_hex c
  | Digit => is_digit c
  | Lit c' => bool_decide (c = c')
  end.

(** Matches a prefix of [s] against a sequence of character classes and
    returns the rest. *)
Fixpoint eat (pat : list cclass) (s : string) : option string :=
  match pat, s with
  | [], _ => Some s
  | k :: pat', String c s' => if in_class k c then eat pat' s' else None
  | _ :: _, EmptyString => None
  end.

Fixpoint all_digits (s : string) : bool :=
  match s with
  | EmptyString => true
  | String c s' => is_digit c && all_digits s'
  end.

Definition dash : cclass := Lit "-"%char.

(** zod 3: [/^[0-9a-f]{8}\b-[0-9a-f]{4}\b-[0-9a-f]{4}\b-[0-9a-f]{4}\b-[0-9a-f]{12}$/i] *)
Definition uuidRegex (s : string) : bool :=
  match eat (replicate 8 Hex ++ [dash] ++ replicate 4 Hex ++ [dash] ++ replicate 4 Hex
             ++ [dash] ++ replicate 4 Hex ++ [dash] ++ replicate 12 Hex) s with
  | Some EmptyString => true
  | _ => false
  end.

(** zod 3, no offset and no fixed precision:
    [/^\d{4}-\d{2}-\d{2}T\d{2}:\d{2}:\d{2}(\.\d+)?Z$/] *)
Definition datetimeRegex (s : string) : bool :=
  match eat (replicate 4 Digit ++ [dash] ++ replicate 2 Digit ++ [dash] ++ replicate 2 Digit
             ++ [Lit "T"%char] ++ replicate 2 Digit ++ [Lit ":"%char] ++ replicate 2 Digit
             ++ [Lit ":"%char] ++ replicate 2 Digit) s with
  | Some "Z" => true
  | Some (String "."%char frac) =>
      match String.length frac, String.get (Nat.pred (String.length frac)) frac with
      | S (S _), Some "Z"%char =>
          all_digits (String.substring 0 (Nat.pred (String.length frac)) frac)
      | _, _ => false
      end
  | _ => false
  end.

(** A stand-in for [new URL(s)] not throwing, on absolute http(s) URLs
    only: the scheme, [//] and a non-empty remainder. *)
Definition httpUrl (s : string) : bool :=
  match eat [Lit "h"; Lit "t"; Lit "t"; Lit "p"]%char s with
  | Some rest =>
      match eat [Lit ":"; Lit "/"; Lit "/"]%char rest,
            eat [Lit "s"; Lit ":"; Lit "/"; Lit "/"]%char rest with
      | Some (String _ _), _ | _, Some (String _ _) => true
      | _, _ => false
      end
  | None => false
  end.

Definition zod3 : StringFormats :=
  {| uuid_test := uuidRegex; datetime_test := datetimeRegex; url_test := httpUrl |}.

End Formats.

(** ** Exceptions, the world and the monad of the clients *)

(** The exceptions the modelled code throws or lets through. [StrapiError]
    is the class of lib/strapi.ts; [ZodError] is thrown by [schema.parse],
    [SyntaxError] by [response.json()] on a body that is not JSON,
    [TypeError] by [fetch] when no response is obtained, and [Error] by the
    plain helper. *)
Inductive exn :=
| StrapiError (message : string) (status : Z) (details : option exn)
| ZodError (issues : list ZodIssue)
| SyntaxError
| TypeError
| Error (message : string).

(** [error.name] *)
Definition exn_name (e : exn) : string :=
  match e with
  | StrapiError _ _ _ => "StrapiError"
  | ZodError _ => "ZodError"
  | SyntaxError => "SyntaxError"
  | TypeError => "TypeError"
  | Error _ => "Error"
  end.

(** The part of [RequestInit] the clients touch; [None] is an absent
    property. *)
Record RequestInit := mkInit {
  init_method : option string;
  init_headers : option (gmap string string);
  init_body : option string;
}.

(** [{}] *)
Definition no_options : RequestInit := mkInit None None None.

(** [{ ...a, ...b }] on [RequestInit]: a property of [b] replaces the one
    of [a]. *)
Definition spread_init (a b : RequestInit) : RequestInit :=
  {| init_method := init_method b ∪ init_method a;
     init_headers := init_headers b ∪ init_headers a;
     init_body := init_body b ∪ init_body a |}.

(** The method of the request [fetch] issues for an init: GET unless the
    init names one. *)
Definition request_method (init : RequestInit) : string :=
  default "GET" (init_method init).

(** A response as the clients read it. [body] is [None] when the body text
    is not JSON. *)
Record Response := mkResponse {
  status : Z;
  statusText : string;
  body : option jsval;
}.

(** [response.ok]: the status is in the range 200-299. *)
Definition ok (response : Response) : bool :=
  (200 <=? status response) && (status response <=? 299).

Inductive FetchOutcome :=
| Responds (response : Response)
| NetworkFailure.

(** The content backend and the network in front of it, as the answer to
    each request. *)
Definition Backend : Type := string → RequestInit → FetchOutcome.

(** An argument of [console.error]. *)
Inductive log_arg := LogStr (s : string) | LogExn (e : exn).

(** What a client leaves behind: the requests issued through [fetch] and
    the records written with [console.error], oldest first. *)
Record World := mkWorld {
  requests : list (string * RequestInit);
  console : list (list log_arg);
}.

Definition M (A : Type) : Type := World → (exn + A) * World.

#[global] Instance M_ret : MRet M := λ A x w, (inr x, w).
#[global] Instance M_bind : MBind M := λ A B f m w,
  match m w with
  | (inl e, w') => (inl e, w')
  | (inr x, w') => f x w'
  end.

Definition throw {A} (e : exn) : M A := λ w, (inl e, w).

(** [try { body } catch (error) { handler }] *)
Definition try_catch {A} (body : M A) (handler : exn → M A) : M A := λ w,
  match body w with
  | (inl e, w') => handler e w'
  | (inr x, w') => (inr x, w')
  end.

(** A synchronous call that returns or throws. *)
Definition lift {A} (r : exn + A) : M A := λ w, (r, w).

Definition console_error (args : list log_arg) : M unit := λ w,
  (inr (), mkWorld (requests w) (console w ++ [args])).

(** [await fetch(url, init)] *)
Definition fetch (backend : Backend) (url : string) (init : RequestInit) : M Response := λ w,
  let w' := mkWorld (requests w ++ [(url, init)]) (console w) in
  match backend url init with
  | Responds response => (inr response, w')
  | NetworkFailure => (inl TypeError, w')
  end.

(** [await response.json()] *)
Definition Response_json (response : Response) : M jsval :=
  lift (match body response with Some v => inr v | None => inl SyntaxError end).

(** [schema.parse(data)]: the value, or a thrown [ZodError]. *)
Definition parse `{StringFormats} (schema : zschema) (data : jsval) : exn + jsval :=
  match safeParse schema data with
  | inl issues => inl (ZodError issues)
  | inr value => inr value
  end.

(** ** lib/env.ts *)

(** [z.infer<typeof envSchema>] *)
Record Env := mkEnv {
  NODE_ENV : string;
  NEXT_PUBLIC_STRAPI_URL : string;
  STRAPI_API_TOKEN : option string;
}.

(** [process.env] as an object: every variable that is set is a string. *)
Definition env_object (process_env : gmap string string) : jsval :=
  JObj (JStr <$> process_env).

(** Reading a parsed value at the type [Env]. *)
Definition as_Env (v : jsval) : option Env :=
  match v with
  | JObj o =>
      match get_prop o "NODE_ENV", get_prop o "NEXT_PUBLIC_STRAPI_URL",
            get_prop o "STRAPI_API_TOKEN" with
      | JStr mode, JStr url, JStr token => Some (mkEnv mode url (Some token))
      | JStr mode, JStr url, JUndefined => Some (mkEnv mode url None)
      | _, _, _ => None
      end
  | _ => None
  end.

(** [export const env = envSchema.parse(process.env)]. The last branch is
    for a parsed value that is not of type [Env]; [env_typed] shows there is
    none. *)
Definition env `{StringFormats} (process_env : gmap string string) : exn + Env :=
  match parse envSchema (env_object process_env) with
  | inl e => inl e
  | inr v => match as_Env v with Some e => inr e | None => inl (ZodError []) end
  end.

(** ** lib/strapi.ts: the validated client *)

Section clients.
Context `{StringFormats} (backend : Backend).

(** [`Bearer ${env.STRAPI_API_TOKEN}`] under [env.STRAPI_API_TOKEN && ...]:
    an absent or empty token contributes no property. *)
Definition authorization (token : option string) : gmap string string :=
  match token with
  | None | Some "" => ∅
  | Some t => {[ "Authorization" := "Bearer " +:+ t ]}
  end.

(** The [headers] literal of [fetchFromStrapi]: the later spread wins. *)
Definition merged_headers (e : Env) (options : RequestInit) : gmap string string :=
  default ∅ (init_headers options)
  ∪ authorization (STRAPI_API_TOKEN e)
  ∪ {[ "Content-Type" := "application/json" ]}.

Definition fetchFromStrapi (e : Env) (path : string) (schema : zschema)
    (options : RequestInit) : M jsval :=
  let url := NEXT_PUBLIC_STRAPI_URL e +:+ "/api" +:+ path in
  response ← fetch backend url
    (spread_init (mkInit None (Some (merged_headers e options)) None) options);
  if negb (ok response) then
    throw (StrapiError ("Strapi API error: " +:+ statusText response) (status response) None)
  else
    rawData ← Response_json response;
    try_catch (lift (parse schema rawData))
      (λ error, throw (StrapiError "Invalid data received from Strapi" 500 (Some error))).

(** A call of an export of lib/strapi.ts in a process whose environment is
    [process_env]: the module imports [env] from lib/env.ts, whose
    evaluation comes first and may throw. *)
Definition with_env {A} (process_env : gmap string string) (call : Env → M A) : M A :=
  e ← lift (env process_env); call e.

(** ** frontend/lib/strapi.ts: the plain helper *)

(** [process.env.NEXT_PUBLIC_STRAPI_API_URL || 'http://localhost:1337'] *)
Definition STRAPI_URL (process_env : gmap string string) : string :=
  match process_env !! "NEXT_PUBLIC_STRAPI_API_URL" with
  | None | Some "" => "http://localhost:1337"
  | Some url => url
  end.

Definition fetchAPI (process_env : gmap string string) (path : string)
    (options : RequestInit) : M jsval :=
  let mergedOptions :=
    spread_init (mkInit None (Some {[ "Content-Type" := "application/json" ]}) None) options in
  let requestUrl := STRAPI_URL process_env +:+ "/api" +:+ path in
  try_catch
    (response ← fetch backend requestUrl mergedOptions;
     if negb (ok response) then
       console_error [LogStr ("Strapi API error: " +:+ pretty (status response)
                              +:+ " " +:+ statusText response)];;
       throw (Error ("Strapi API error: " +:+ pretty (status response)))
     else Response_json response)
    (λ error,
       console_error [LogStr "Strapi API fetch error:"; LogExn error];;
       throw error).
End clients.

(** The world before anything ran. *)
Definition initial : World := mkWorld [] [].

(** ** Specification-side notions *)

(** [error.status], [error.details] and [error.message] of a thrown value. *)
Definition exn_status (e : exn) : option Z :=
  match e with StrapiError _ s _ => Some s | _ => None end.

Definition exn_details (e : exn) : option exn :=
  match e with StrapiError _ _ d => d | _ => None end.

Definition exn_message (e : exn) : option string :=
  match e with
  | StrapiError m _ _ | Error m => Some m
  | _ => None
  end.

(** [v.k1.k2...]: following property names into a value. *)
Fixpoint get_in (keys : list string) (v : jsval) : jsval :=
  match keys with
  | [] => v
  | k :: keys' =>
      match v with
      | JObj o => get_in keys' (get_prop o k)
      | _ => JUndefined
      end
  end.

(** The URL and the init [fetchFromStrapi] passes to [fetch]. *)
Definition request_url (e : Env) (path : string) : string :=
  NEXT_PUBLIC_STRAPI_URL e +:+ "/api" +:+ path.

Definition request_init (e : Env) (options : RequestInit) : RequestInit :=
  spread_init (mkInit None (Some (merged_headers e options)) None) options.

(** The world after one more request. *)
Definition sent (w : World) (url : string) (init : RequestInit) : World :=
  mkWorld (requests w ++ [(url, init)]) (console w).

(** Whether an outcome is [OK], and the value an outcome carries. *)
Definition is_OK (r : ParseReturn) : bool :=
  match r with OK _ => true | _ => false end.

Definition return_value (r : ParseReturn) : option jsval :=
  match r with OK v | DIRTY v => Some v | INVALID => None end.

(** What [mergeObjectSync] does to [finalObject] for one pair, and for a
    list of pairs none of which is aborted. *)
Definition store_pair (finalObject : gmap string jsval) (p : ObjectPair) : gmap string jsval :=
  match return_value (pair_value p) with
  | Some v =>
      if negb (is_undefined v) || pair_alwaysSet p
      then <[pair_key p := v]> finalObject else finalObject
  | None => finalObject
  end.

Definition store_pairs (finalObject : gmap string jsval) (pairs : list ObjectPair)
    : gmap string jsval :=
  foldl store_pair finalObject pairs.

(** Whether [schema] accepts [data]: [safeParse] succeeds. *)
Definition accepts `{StringFormats} (schema : zschema) (data : jsval) : bool :=
  is_OK (_parse schema [] data).2.

(** [narrows B v]: [v] is [B] with object properties left out, and nothing
    else changed: scalars are the same, arrays keep their length and order,
    and every property of [v] is a property of [B]. *)
Inductive narrows : jsval → jsval → Prop :=
| narrows_same B : narrows B B
| narrows_array items items' :
    Forall2 narrows items items' → narrows (JArr items) (JArr items')
| narrows_object o o' :
    (∀ k v', o' !! k = Some v' → ∃ v, o !! k = Some v ∧ narrows v v') →
    narrows (JObj o) (JObj o').

(** [only_declared schema data]: wherever [schema] describes an object,
    [data] has no property besides the declared ones. *)
Fixpoint only_declared (schema : zschema) (data : jsval) : Prop :=
  match schema with
  | ZOptional inner | ZBranded _ inner => only_declared inner data
  | ZArray item =>
      match data with
      | JArr items => Forall (only_declared item) items
      | _ => True
      end
  | ZObject shape =>
      match data with
      | JObj o =>
          (∀ k, is_Some (o !! k) → k ∈ shape.*1) ∧
          (fix props (shape : list (string * zschema)) : Prop :=
             match shape with
             | [] => True
             | (key, keyValidator) :: rest =>
                 only_declared keyValidator (get_prop o key) ∧ props rest
             end) shape
      | _ => True
      end
  | _ => True
  end.

(** [strip schema data]: [data] without the properties [schema] does not
    declare, at every object [schema] describes. No test is made: a value
    of another kind than the schema expects is left as it is. *)
Fixpoint strip (schema : zschema) (data : jsval) : jsval :=
  match schema with
  | ZOptional inner | ZBranded _ inner => strip inner data
  | ZArray item =>
      match data with
      | JArr items => JArr (strip item <$> items)
      | _ => data
      end
  | ZObject shape =>
      match data with
      | JObj o =>
          JObj ((fix declared (shape : list (string * zschema)) (kept : gmap string jsval)
                   : gmap string jsval :=
                   match shape with
                   | [] => kept
                   | (key, keyValidator) :: rest =>
                       declared rest
                         match o !! key with
                         | Some x => <[key := strip keyValidator x]> kept
                         | None => kept
                         end
                   end) shape ∅)
      | _ => data
      end
  | _ => data
  end.

(** The loop of [strip] over a shape, as a function of its own. *)
Fixpoint strip_shape (o : gmap string jsval) (shape : list (string * zschema))
    (kept : gmap string jsval) : gmap string jsval :=
  match shape with
  | [] => kept
  | (key, keyValidator) :: rest =>
      strip_shape o rest
        match o !! key with
        | Some x => <[key := strip keyValidator x]> kept
        | None => kept
        end
  end.

(** The counts of a collection envelope: the length of [data] and the four
    numbers of [meta.pagination]. *)
Record Counts := mkCounts {
  data_length : nat;
  page : Q;
  pageSize : Q;
  pageCount : Q;
  total : Q;
}.

Definition envelope_counts (envelope : jsval) : option Counts :=
  match get_in ["data"] envelope,
        get_in ["meta"; "pagination"; "page"] envelope,
        get_in ["meta"; "pagination"; "pageSize"] envelope,
        get_in ["meta"; "pagination"; "pageCount"] envelope,
        get_in ["meta"; "pagination"; "total"] envelope with
  | JArr items, JNum p, JNum ps, JNum pc, JNum t => Some (mkCounts (length items) p ps pc t)
  | _, _, _, _, _ => None
  end.

(** The consistency the data model asks of an envelope: [page * pageSize]
    bounds the length of the sequence, and [pageCount] is the ceiling of
    [total / pageSize]. *)
Definition counts_consistent (c : Counts) : bool :=
  Qle_bool (inject_Z (Z.of_nat (data_length c))) (page c * pageSize c)
  && Qeq_bool (pageCount c) (inject_Z (Qceiling (total c / pageSize c))).

Definition pagination_consistent (envelope : jsval) : bool :=
  match envelope_counts envelope with
  | Some c => counts_consistent c
  | None => false
  end.

(** ** The scenarios *)

Module Scenario.

(** A backend that gives the same answer to every request. *)
Definition always (response : Response) : Backend := λ _ _, Responds response.

Definition local_env : Env := mkEnv "development" "http://localhost:1337" None.

Definition token_env : Env := mkEnv "production" "http://localhost:1337" (Some "s3cret").

Definition article : jsval :=
  JObj {[
    "id" := JStr "11111111-1111-1111-1111-111111111111";
    "attributes" := JObj {[
      "title" := JStr "Hi";
      "content" := JStr "Body";
      "slug" := JStr "hi";
      "publishedAt" := JStr "2024-01-01T00:00:00.000Z";
      "createdAt" := JStr "2024-01-01T00:00:00.000Z";
      "updatedAt" := JStr "2024-01-01T00:00:00.000Z"
    ]}
  ]}.

Definition pagination (p ps pc t : Z) : jsval :=
  JObj {[ "page" := JInt p; "pageSize" := JInt ps; "pageCount" := JInt pc; "total" := JInt t ]}.

Definition collection (items : list jsval) (pagination : jsval) : jsval :=
  JObj {[ "data" := JArr items; "meta" := JObj {[ "pagination" := pagination ]} ]}.

Definition single (item : jsval) : jsval :=
  JObj {[ "data" := item; "meta" := JObj ∅ ]}.

(** The body of the articles scenario. *)
Definition articles_body : jsval := collection [article] (pagination 1 25 1 1).

(** The same article with an attribute the schema does not declare. *)
Definition article_with_author : jsval :=
  JObj {[
    "id" := JStr "11111111-1111-1111-1111-111111111111";
    "attributes" := JObj {[
      "title" := JStr "Hi";
      "content" := JStr "Body";
      "slug" := JStr "hi";
      "author" := JStr "Ann";
      "publishedAt" := JStr "2024-01-01T00:00:00.000Z";
      "createdAt" := JStr "2024-01-01T00:00:00.000Z";
      "updatedAt" := JStr "2024-01-01T00:00:00.000Z"
    ]}
  ]}.

(** Two articles on a page said to hold one, of a collection said to be
    empty and to have five pages. *)
Definition inconsistent_body : jsval := collection [article; article] (pagination 1 1 5 0).

(** [{"data":{"id":"not-a-uuid"}}] *)
Definition not_a_uuid_body : jsval :=
  JObj {[ "data" := JObj {[ "id" := JStr "not-a-uuid" ]} ]}.

(** Two process environments: a complete one, and one in which
    NEXT_PUBLIC_STRAPI_URL is not set. *)
Definition complete_process_env : gmap string string :=
  {[ "NODE_ENV" := "development";
     "NEXT_PUBLIC_STRAPI_URL" := "http://localhost:1337";
     "PATH" := "/usr/bin" ]}.

Definition process_env_without_url : gmap string string :=
  {[ "NODE_ENV" := "production"; "PATH" := "/usr/bin" ]}.

Definition ok_json (v : jsval) : Response := mkResponse 200 "OK" (Some v).

(** A 200 whose body is not JSON (an HTML error page, a cut-off body). *)
Definition ok_not_json : Response := mkResponse 200 "OK" None.

Definition not_found : Response := mkResponse 404 "Not Found" None.

Definition server_error : Response := mkResponse 500 "Internal Server Error" None.

(** Options that add one header of the caller's. *)
Definition traced : RequestInit :=
  mkInit None (Some {[ "X-Request-Id" := "42" ]}) None.

Definition content_type_only : gmap string string :=
  {[ "Content-Type" := "application/json" ]}.

End Scenario.

(** ** The callers of the validated client *)

Section callers.
Context `{StringFormats} (backend : Backend).

(** lib/strapi.ts, usage examples *)
Definition getArticles (e : Env) : M jsval :=
  fetchFromStrapi backend e "/articles?populate=*"
    (strapiCollectionSchema articleSchema) no_options.

Definition getArticle (e : Env) (slug : string) : M jsval :=
  fetchFromStrapi backend e ("/articles?filters[slug][$eq]=" +:+ slug +:+ "&populate=*")
    (strapiCollectionSchema articleSchema) no_options.

(** The [onSubmit] of the contact form: the form data is posted under
    [data] and the answer, validated with [z.unknown()], is dropped.
    [stringify] stands for the platform's [JSON.stringify]. *)
Definition onSubmit (stringify : jsval → string) (e : Env) (data : jsval) : M unit :=
  fetchFromStrapi backend e "/contact-submissions" ZUnknown
    (mkInit (Some "POST") None (Some (stringify (JObj {[ "data" := data ]}))));;
  mret ().
End callers.

(** Whether the keys of every object shape of a schema are distinct, as
    they are in a shape written as an object literal. *)
Fixpoint distinct_keys (schema : zschema) : bool :=
  match schema with
  | ZOptional inner | ZBranded _ inner | ZArray inner => distinct_keys inner
  | ZObject shape =>
      bool_decide (NoDup shape.*1)
      && (fix validators (shape : list (string * zschema)) : bool :=
            match shape with
            | [] => true
            | (_, keyValidator) :: rest => distinct_keys keyValidator && validators rest
            end) shape
  | _ => true
  end.

(** The kinds of failure of [fetchFromStrapi], as its caller can tell them
    apart. *)
Inductive failure_kind :=
| Transport
| NotJson
| HttpStatus (status : Z) (statusText : string)
| Validation (issues : list ZodIssue).

Definition failure_of (kind : failure_kind) : exn :=
  match kind with
  | Transport => TypeError
  | NotJson => SyntaxError
  | HttpStatus status statusText =>
      StrapiError ("Strapi API error: " +:+ statusText) status None
  | Validation issues =>
      StrapiError "Invalid data received from Strapi" 500 (Some (ZodError issues))
  end.

(** [is_article a]: [a] has the fields of an [Article], each of its
    kind. *)
Definition is_article `{StringFormats} (a : jsval) : Prop :=
  ∃ id title content slug publishedAt createdAt updatedAt,
    get_in ["id"] a = JStr id ∧ uuid_test id = true
    ∧ get_in ["attributes"; "title"] a = JStr title
    ∧ get_in ["attributes"; "content"] a = JStr content
    ∧ get_in ["attributes"; "slug"] a = JStr slug
    ∧ get_in ["attributes"; "publishedAt"] a = JStr publishedAt
    ∧ datetime_test publishedAt = true
    ∧ get_in ["attributes"; "createdAt"] a = JStr createdAt
    ∧ datetime_test createdAt = true
    ∧ get_in ["attributes"; "updatedAt"] a = JStr updatedAt
    ∧ datetime_test updatedAt = true.

(** A collection envelope without items. *)
Definition empty_page (page pageSize pageCount total : Q) : jsval :=
  JObj {[ "data" := JArr [];
          "meta" := JObj {[ "pagination" :=
            JObj {[ "page" := JNum page; "pageSize" := JNum pageSize;
                    "pageCount" := JNum pageCount; "total" := JNum total ]} ]} ]}.

(** Two more process environments: the complete one without the variable
    the configuration does not read, and one of a hosted deployment. *)
Module Deployment.

Definition bare_process_env : gmap string string :=
  {[ "NODE_ENV" := "development";
     "NEXT_PUBLIC_STRAPI_URL" := "http://localhost:1337" ]}.

Definition hosted_process_env : gmap string string :=
  {[ "NODE_ENV" := "production";
     "NEXT_PUBLIC_STRAPI_URL" := "https://cms.example.com";
     "STRAPI_API_TOKEN" := "s3cret" ]}.

Definition hosted_env : Env := mkEnv "production" "https://cms.example.com" (Some "s3cret").

End Deployment.

(** ** Validation: outcomes and issues *)

(** Induction on schemas, with the hypothesis for every validator of an
    object shape. *)
Lemma zschema_nested_ind (P : zschema → Prop) :
  (∀ checks, P (ZString checks)) →
  P ZNumber →
  (∀ values, P (ZEnum values)) →
  P ZUnknown →
  (∀ inner, P inner → P (ZOptional inner)) →
  (∀ brand inner, P inner → P (ZBranded brand inner)) →
  (∀ item, P item → P (ZArray item)) →
  (∀ shape, Forall (λ p, P p.2) shape → P (ZObject shape)) →
  ∀ schema, P schema.
Proof.
  intros HS HN HE HU HO HB HA HObj. fix IH 1.
  intros [checks| |values| |inner|brand inner|item|shape].
  - apply HS.
  - apply HN.
  - apply HE.
  - apply HU.
  - apply HO, IH.
  - apply HB, IH.
  - apply HA, IH.
  - apply HObj. induction shape as [|[key validator] rest IHrest]; constructor.
    + apply IH.
    + apply IHrest.
Qed.

(** An array or an object is [OK] exactly when every part is. *)
Lemma mergeArray_is_OK d acc rs :
  is_OK (mergeArray d acc rs) = negb d && forallb is_OK rs.
Proof.
  revert d acc. induction rs as [|[v|v|] rs IH]; intros d acc; cbn [mergeArray forallb is_OK].
  - by destruct d.
  - rewrite IH. done.
  - rewrite IH. cbn. by rewrite andb_false_r.
  - by rewrite andb_false_r.
Qed.

Lemma mergeObjectSync_is_OK d acc pairs :
  is_OK (mergeObjectSync d acc pairs) = negb d && forallb (λ p, is_OK (pair_value p)) pairs.
Proof.
  revert d acc. induction pairs as [|[k [v|v|] a] rs IH]; intros d acc;
    cbn [mergeObjectSync forallb is_OK pair_value].
  - by destruct d.
  - rewrite IH. done.
  - rewrite IH. cbn. by rewrite andb_false_r.
  - by rewrite andb_false_r.
Qed.

(** A property of every [f i x] holds of the whole [imap f l]. *)
Lemma Forall_imap_intro {A B} (P : B → Prop) (f : nat → A → B) (l : list A) :
  (∀ i x, P (f i x)) → Forall P (imap f l).
Proof.
  revert f. induction l as [|x l IH]; intros f Hf; cbn [imap]; constructor; [done|].
  apply IH. intros i y. apply Hf.
Qed.

(** Results that are each [OK] exactly when they have no issue are all
    [OK] exactly when their issues, put together, are none. *)
Lemma results_OK_iff_no_issue (results : list (list ZodIssue * ParseReturn)) :
  Forall (λ r, is_OK r.2 = true ↔ r.1 = []) results →
  forallb is_OK results.*2 = true ↔ concat results.*1 = [].
Proof.
  induction 1 as [|[issues r] results Hr _ IH]; [done|].
  cbn [fmap list_fmap forallb concat fst snd] in *.
  rewrite andb_true_iff, IH, Hr. split.
  - by intros [-> ->].
  - by intros [-> ->]%app_eq_nil.
Qed.

Section validation.
Context `{StringFormats}.
(** [_parse] on an object runs [parse_shape] and merges its pairs. *)
Lemma _parse_object shape path o :
  _parse (ZObject shape) path (JObj o)
  = ((parse_shape o path shape).1, mergeObjectSync false ∅ (parse_shape o path shape).2).
Proof.
  cbn [_parse].
  match goal with |- context [?f shape] => assert (f shape = parse_shape o path shape) as -> end; [|done].
  induction shape as [|[key s] rest IH]; [done|]. cbn [parse_shape]. by rewrite IH.
Qed.

(** The same for the pairs of an object. *)
Lemma parse_shape_OK_iff_no_issue o path shape :
  Forall (λ p, ∀ path data,
            is_OK (_parse p.2 path data).2 = true ↔ (_parse p.2 path data).1 = []) shape →
  forallb (λ p, is_OK (pair_value p)) (parse_shape o path shape).2 = true
  ↔ (parse_shape o path shape).1 = [].
Proof.
  induction 1 as [|[key validator] rest Hv _ IH]; [done|].
  cbn [parse_shape forallb fst snd pair_value] in *.
  rewrite andb_true_iff, IH, Hv. split.
  - by intros [-> ->].
  - by intros [-> ->]%app_eq_nil.
Qed.

(** An outcome is [OK] exactly when no issue was added. *)
Lemma parse_issues_iff_not_OK schema : ∀ path data,
  is_OK (_parse schema path data).2 = true ↔ (_parse schema path data).1 = [].
Proof.
  induction schema as [checks| |values| |inner IH|brand inner IH|item IH|shape IH]
    using zschema_nested_ind; intros path data.
  - destruct data; cbn [_parse fst snd is_OK]; try done.
    by destruct (string_issues path checks s).
  - by destruct data.
  - destruct data; cbn [_parse fst snd is_OK]; try done. by case_bool_decide.
  - done.
  - destruct data; cbn [_parse]; try apply IH. done.
  - apply IH.
  - destruct data; cbn [_parse fst snd is_OK]; try done.
    rewrite mergeArray_is_OK. cbn [negb andb].
    apply results_OK_iff_no_issue, Forall_imap_intro. intros i x. apply IH.
  - destruct data; try done. rewrite _parse_object. cbn [fst snd].
    rewrite mergeObjectSync_is_OK. cbn [negb andb].
    by apply parse_shape_OK_iff_no_issue.
Qed.

(** A failed [safeParse] reports at least one issue. *)
Lemma safeParse_issues schema data issues :
  safeParse schema data = inl issues → issues ≠ [].
Proof.
  unfold safeParse. pose proof (parse_issues_iff_not_OK schema [] data) as Hc.
  destruct (_parse schema [] data) as [iss [v|v|]]; cbn [fst snd is_OK] in Hc;
    intros [= <-]; intros ->; by destruct Hc as [_ Hc]; specialize (Hc eq_refl).
Qed.
End validation.

(** ** Validation: the value of a successful parse *)

(** The value of a merged array or object, when it has one. *)
Lemma mergeArray_value d acc rs v :
  return_value (mergeArray d acc rs) = Some v →
  ∃ vals, v = JArr (acc ++ vals) ∧ Forall2 (λ r x, return_value r = Some x) rs vals.
Proof.
  revert d acc. induction rs as [|[x|x|] rs IH]; intros d acc; cbn [mergeArray].
  - intros Hv. exists []. rewrite app_nil_r. split; [|constructor].
    destruct d; by injection Hv as <-.
  - intros (vals & -> & Hvals)%IH. exists (x :: vals).
    rewrite <-(assoc_L (++)). split; [done|]. by constructor.
  - intros (vals & -> & Hvals)%IH. exists (x :: vals).
    rewrite <-(assoc_L (++)). split; [done|]. by constructor.
  - done.
Qed.

(** A merged object that has a value is [store_pairs] of its pairs, each
    of which has a value. *)
Lemma mergeObjectSync_value d acc pairs v :
  return_value (mergeObjectSync d acc pairs) = Some v →
  v = JObj (store_pairs acc pairs)
  ∧ Forall (λ p, is_Some (return_value (pair_value p))) pairs.
Proof.
  revert d acc. induction pairs as [|[k r a] pairs IH]; intros d acc;
    cbn [mergeObjectSync store_pairs foldl].
  - intros Hv. split; [|constructor]. destruct d; by injection Hv as <-.
  - unfold store_pair at 2. cbn [pair_value pair_key pair_alwaysSet].
    destruct r as [x|x|]; cbn [return_value]; [| |done].
    + intros [-> Hall]%IH. split; [done|]. constructor; [by eexists|done].
    + intros [-> Hall]%IH. split; [done|]. constructor; [by eexists|done].
Qed.

(** Nothing but [undefined] narrows [undefined]. *)
Lemma narrows_undefined v : narrows JUndefined v → v = JUndefined.
Proof. by inversion 1. Qed.

(** A relation between each element and the value of its result relates
    the elements to the values of the results. *)
Lemma Forall2_imap_values {A} (R : A → jsval → Prop)
    (f : nat → A → list ZodIssue * ParseReturn) items vals :
  (∀ i x v, return_value (f i x).2 = Some v → R x v) →
  Forall2 (λ r x, return_value r = Some x) (imap f items).*2 vals →
  Forall2 R items vals.
Proof.
  revert f vals. induction items as [|x items IH]; intros f vals Hf; cbn [imap fmap list_fmap].
  - intros ->%Forall2_nil_inv_l. constructor.
  - intros (v & vals' & Hv & Hvals & ->)%Forall2_cons_inv_l. constructor.
    + by eapply Hf.
    + eapply IH; [|done]. intros i y w. apply Hf.
Qed.

(** Related lists are equal when the relation gives equality on the
    elements that satisfy [P], and all of them do. *)
Lemma Forall2_eq_of_Forall {A} (R : A → A → Prop) (P : A → Prop) l l' :
  (∀ x y, R x y → P x → y = x) → Forall2 R l l' → Forall P l → l' = l.
Proof.
  intros HR. induction 1 as [|x y l l' Hxy _ IH]; [done|].
  intros [Hx Hl]%Forall_cons. f_equal; [by apply HR | by apply IH].
Qed.

Section narrowing.
Context `{StringFormats}.

(** Every property stored for an object comes from a property of the
    input. *)
Lemma store_pairs_narrows o path shape : ∀ acc k v',
  Forall (λ p, ∀ path data v,
            return_value (_parse p.2 path data).2 = Some v → narrows data v) shape →
  store_pairs acc (parse_shape o path shape).2 !! k = Some v' →
  acc !! k = Some v' ∨ ∃ x, o !! k = Some x ∧ narrows x v'.
Proof.
  induction shape as [|[key validator] rest IH]; intros acc k v' Hshape; [by left|].
  apply Forall_cons in Hshape as [Hv Hrest]. cbn [snd] in Hv.
  cbn [parse_shape snd store_pairs foldl]. intros Hk.
  apply (IH _ _ _ Hrest) in Hk as [Hk|Hk]; [|by right].
  unfold store_pair in Hk. cbn [pair_value pair_key pair_alwaysSet] in Hk.
  destruct (return_value _) as [x|] eqn:Hx; [|by left].
  apply Hv in Hx. unfold get_prop, has_prop in *.
  destruct (o !! key) as [y|] eqn:Hkey; cbn [default] in *.
  - rewrite bool_decide_eq_true_2, orb_true_r in Hk by by eexists.
    destruct (decide (key = k)) as [->|Hne].
    + rewrite lookup_insert_eq in Hk. injection Hk as <-. right. by exists y.
    + rewrite lookup_insert_ne in Hk by done. by left.
  - apply narrows_undefined in Hx as ->.
    rewrite bool_decide_eq_false_2 in Hk by by intros [? [=]].
    by left.
Qed.

(** A parsed value is the input with object properties left out. *)
Lemma parse_narrows schema : ∀ path data v,
  return_value (_parse schema path data).2 = Some v → narrows data v.
Proof.
  induction schema as [checks| |values| |inner IH|brand inner IH|item IH|shape IH]
    using zschema_nested_ind; intros path data v.
  - destruct data; cbn [_parse snd return_value]; try done.
    destruct (string_issues _ _ _); intros [= <-]; constructor.
  - destruct data; cbn [_parse snd return_value]; try done. intros [= <-]; constructor.
  - destruct data; cbn [_parse snd return_value]; try done.
    case_bool_decide; [|done]. intros [= <-]; constructor.
  - intros [= <-]; constructor.
  - destruct data; cbn [_parse]; try apply IH. intros [= <-]; constructor.
  - apply IH.
  - destruct data; cbn [_parse snd return_value]; try done.
    intros (vals & -> & Hvals)%mergeArray_value. cbn [app]. constructor.
    eapply Forall2_imap_values; [|done]. intros i x w. apply IH.
  - destruct data as [| | | | | |o]; try done. rewrite _parse_object. cbn [snd].
    intros [-> _]%mergeObjectSync_value. constructor. intros k v' Hk.
    apply (store_pairs_narrows _ _ _ _ _ _ IH) in Hk as [Hk|Hk]; [|done].
    by rewrite lookup_empty in Hk.
Qed.

(** [only_declared] on an object, with the loop over the shape as a
    [Forall]. *)
Lemma only_declared_object shape o :
  only_declared (ZObject shape) (JObj o)
  ↔ (∀ k, is_Some (o !! k) → k ∈ shape.*1)
    ∧ Forall (λ p, only_declared p.2 (get_prop o p.1)) shape.
Proof.
  cbn [only_declared]. apply and_iff_compat_l.
  induction shape as [|[key validator] rest IH]; [by split; [constructor|]|].
  rewrite Forall_cons, IH. done.
Qed.

(** When the input has declared properties only, the stored object has
    each of them, unchanged. *)
Lemma store_pairs_only_declared o path shape : ∀ acc k,
  Forall (λ p, ∀ path data v,
            return_value (_parse p.2 path data).2 = Some v →
            only_declared p.2 data → v = data) shape →
  Forall (λ p, only_declared p.2 (get_prop o p.1)) shape →
  Forall (λ p, is_Some (return_value (pair_value p))) (parse_shape o path shape).2 →
  store_pairs acc (parse_shape o path shape).2 !! k
  = match o !! k with
    | Some x => if decide (k ∈ shape.*1) then Some x else acc !! k
    | None => acc !! k
    end.
Proof.
  induction shape as [|[key validator] rest IH]; intros acc k Hshape Hdecl Hvals.
  - cbn [parse_shape snd store_pairs foldl fmap list_fmap].
    destruct (o !! k); [|done]. by rewrite decide_False by apply not_elem_of_nil.
  - apply Forall_cons in Hshape as [Hv Hrest]. apply Forall_cons in Hdecl as [Hd Hdecl].
    cbn [parse_shape snd] in Hvals. apply Forall_cons in Hvals as [[x Hx] Hvals].
    cbn [fst snd pair_value] in Hv, Hd, Hx.
    cbn [parse_shape snd store_pairs foldl].
    change (foldl store_pair ?a ?l) with (store_pairs a l).
    rewrite (IH _ _ Hrest Hdecl Hvals).
    unfold store_pair. cbn [pair_value pair_key pair_alwaysSet]. rewrite Hx.
    apply Hv in Hx as ->; [|done].
    cbn [fmap list_fmap fst]. unfold get_prop, has_prop.
    destruct (o !! key) as [y|] eqn:Hkey; cbn [default].
    + rewrite bool_decide_eq_true_2, orb_true_r by by eexists.
      destruct (o !! k) as [z|] eqn:Hk.
      * destruct (decide (k ∈ rest.*1)) as [Hin|Hnin].
        -- rewrite decide_True by (apply elem_of_cons; by right). done.
        -- destruct (decide (key = k)) as [->|Hne].
           ++ rewrite lookup_insert_eq, decide_True by (apply elem_of_cons; by left).
              unfold id. congruence.
           ++ rewrite lookup_insert_ne by done.
              rewrite decide_False; [done|]. intros [->|?]%elem_of_cons; done.
      * rewrite lookup_insert_ne; [done|]. congruence.
    + cbn [is_undefined negb orb]. rewrite bool_decide_eq_false_2 by by intros [? [=]].
      destruct (o !! k) as [z|] eqn:Hk; [|done].
      destruct (decide (k ∈ rest.*1)) as [Hin|Hnin].
      * rewrite decide_True by (apply elem_of_cons; by right). done.
      * rewrite decide_False; [done|]. intros [->|?]%elem_of_cons; [congruence|done].
Qed.

(** A parsed value is the input itself when the input has declared
    properties only. *)
Lemma parse_only_declared schema : ∀ path data v,
  return_value (_parse schema path data).2 = Some v →
  only_declared schema data → v = data.
Proof.
  induction schema as [checks| |values| |inner IH|brand inner IH|item IH|shape IH]
    using zschema_nested_ind; intros path data v.
  - destruct data; cbn [_parse snd return_value]; try done.
    destruct (string_issues _ _ _); by intros [= <-] _.
  - destruct data; cbn [_parse snd return_value]; try done. by intros [= <-] _.
  - destruct data; cbn [_parse snd return_value]; try done.
    case_bool_decide; [|done]. by intros [= <-] _.
  - by intros [= <-] _.
  - destruct data; cbn [_parse only_declared]; try apply IH. by intros [= <-] _.
  - apply IH.
  - destruct data; cbn [_parse snd return_value only_declared]; try done.
    intros (vals & -> & Hvals)%mergeArray_value Hdecl. cbn [app]. f_equal.
    eapply (Forall2_eq_of_Forall (λ x v, only_declared item x → v = x));
      [intros x y Hxy Hx; by apply Hxy| |done].
    eapply Forall2_imap_values; [|done]. intros i x w. apply IH.
  - destruct data as [| | | | | |o]; try done. rewrite _parse_object. cbn [snd].
    intros [-> Hvals]%mergeObjectSync_value [Hkeys Hdecl]%only_declared_object.
    f_equal. apply map_eq. intros k.
    rewrite (store_pairs_only_declared _ _ _ _ _ IH Hdecl Hvals), lookup_empty.
    destruct (o !! k) as [x|] eqn:Hk; [|done].
    by rewrite decide_True by (apply Hkeys; by eexists).
Qed.
End narrowing.

(** [strip] on an object runs [strip_shape]. *)
Lemma strip_object shape o :
  strip (ZObject shape) (JObj o) = JObj (strip_shape o shape ∅).
Proof.
  cbn [strip]. f_equal. generalize (∅ : gmap string jsval) as kept.
  induction shape as [|[key validator] rest IH]; intros kept; [done|].
  cbn [strip_shape]. by rewrite <-IH.
Qed.

(** [undefined] has nothing to strip. *)
Lemma strip_undefined schema : strip schema JUndefined = JUndefined.
Proof.
  induction schema using zschema_nested_ind; cbn [strip]; done.
Qed.

(** The values of the results are the images of the elements under [g]
    when each result has the image of its element. *)
Lemma Forall2_imap_strip (f : nat → jsval → list ZodIssue * ParseReturn) g items vals :
  (∀ i x v, return_value (f i x).2 = Some v → v = g x) →
  Forall2 (λ r x, return_value r = Some x) (imap f items).*2 vals →
  vals = g <$> items.
Proof.
  intros Hf Hvals.
  apply (Forall2_imap_values (λ x v, v = g x)) in Hvals; [|done].
  induction Hvals as [|x v items vals -> _ IH]; [done|]. cbn. by rewrite IH.
Qed.

Section stripping.
Context `{StringFormats}.

(** Storing the pairs of a shape keeps what [strip_shape] keeps. *)
Lemma store_pairs_strip o path shape : ∀ kept,
  Forall (λ p, ∀ path data v,
            return_value (_parse p.2 path data).2 = Some v → v = strip p.2 data) shape →
  Forall (λ p, is_Some (return_value (pair_value p))) (parse_shape o path shape).2 →
  store_pairs kept (parse_shape o path shape).2 = strip_shape o shape kept.
Proof.
  induction shape as [|[key validator] rest IH]; intros kept Hshape Hvals; [done|].
  apply Forall_cons in Hshape as [Hv Hrest].
  cbn [parse_shape snd] in Hvals. apply Forall_cons in Hvals as [[x Hx] Hvals].
  cbn [fst snd pair_value] in Hv, Hx.
  cbn [parse_shape snd store_pairs foldl strip_shape].
  change (foldl store_pair ?a ?l) with (store_pairs a l).
  rewrite (IH _ Hrest Hvals). f_equal.
  unfold store_pair. cbn [pair_value pair_key pair_alwaysSet]. rewrite Hx.
  apply Hv in Hx as ->. unfold get_prop, has_prop.
  destruct (o !! key) as [y|]; cbn [default].
  - by rewrite bool_decide_eq_true_2, orb_true_r by by eexists.
  - rewrite strip_undefined. cbn [is_undefined negb orb].
    by rewrite bool_decide_eq_false_2 by by intros [? [=]].
Qed.

(** A parsed value is the input without the undeclared properties. *)
Lemma parse_strip schema : ∀ path data v,
  return_value (_parse schema path data).2 = Some v → v = strip schema data.
Proof.
  induction schema as [checks| |values| |inner IH|brand inner IH|item IH|shape IH]
    using zschema_nested_ind; intros path data v.
  - destruct data; cbn [_parse snd return_value]; try done.
    destruct (string_issues _ _ _); by intros [= <-].
  - destruct data; cbn [_parse snd return_value]; try done. by intros [= <-].
  - destruct data; cbn [_parse snd return_value]; try done.
    case_bool_decide; [|done]. by intros [= <-].
  - by intros [= <-].
  - destruct data; cbn [_parse strip]; try apply IH.
    intros [= <-]. by rewrite strip_undefined.
  - apply IH.
  - destruct data; cbn [_parse snd return_value strip]; try done.
    intros (vals & -> & Hvals)%mergeArray_value. cbn [app]. f_equal.
    eapply Forall2_imap_strip; [|done]. intros i x w. apply IH.
  - destruct data as [| | | | | |o]; try done. rewrite _parse_object, strip_object. cbn [snd].
    intros [-> Hvals]%mergeObjectSync_value. f_equal. by apply store_pairs_strip.
Qed.
End stripping.

Section envelopes.
Context `{StringFormats}.

(** What a value of an object, a number or an array schema says of the
    input. *)
Lemma parse_object_inv shape path data v :
  return_value (_parse (ZObject shape) path data).2 = Some v →
  ∃ o, data = JObj o
       ∧ v = JObj (store_pairs ∅ (parse_shape o path shape).2)
       ∧ Forall (λ p, is_Some (return_value (pair_value p))) (parse_shape o path shape).2.
Proof.
  destruct data as [| | | | | |o]; try done. rewrite _parse_object. cbn [snd].
  intros [-> Hvals]%mergeObjectSync_value. by exists o.
Qed.

Lemma parse_number_inv path data v :
  return_value (_parse ZNumber path data).2 = Some v → ∃ q, data = JNum q ∧ v = JNum q.
Proof. destruct data; try done. intros [= <-]. by eexists. Qed.

Lemma parse_array_inv item path data v :
  return_value (_parse (ZArray item) path data).2 = Some v →
  ∃ items vals, data = JArr items ∧ v = JArr vals ∧ length vals = length items.
Proof.
  destruct data as [| | | | |items|]; try done. cbn [_parse snd].
  intros (vals & -> & Hvals)%mergeArray_value. exists items, vals. split_and!; [done..|].
  apply Forall2_length in Hvals. by rewrite length_fmap, length_imap in Hvals.
Qed.

(** Unfolds the pairs of a literal shape and the stores made for them. *)
Ltac unfold_store :=
  cbn [parse_shape snd]; unfold store_pairs; cbn [foldl]; unfold store_pair;
  cbn [pair_value pair_key pair_alwaysSet].

(** A parsed collection envelope has the counts of the input. *)
Lemma collection_counts itemSchema path data v :
  return_value (_parse (strapiCollectionSchema itemSchema) path data).2 = Some v →
  ∃ counts, envelope_counts v = Some counts ∧ envelope_counts data = Some counts.
Proof.
  unfold strapiCollectionSchema, paginationSchema.
  intros (o & -> & -> & Hvals)%parse_object_inv. revert Hvals. unfold_store.
  rewrite !Forall_cons. cbn [pair_value].
  intros ([d Hd] & [m Hm] & _). rewrite Hd, Hm.
  apply parse_array_inv in Hd as (items & vals & Hdata & -> & Hlen).
  apply parse_object_inv in Hm as (mo & Hmeta & -> & Hvals). revert Hvals. unfold_store.
  rewrite !Forall_cons. cbn [pair_value].
  intros ([p Hp] & _). rewrite Hp.
  apply parse_object_inv in Hp as (po & Hpag & -> & Hvals). revert Hvals. unfold_store.
  rewrite !Forall_cons. cbn [pair_value].
  intros ([v1 H1] & [v2 H2] & [v3 H3] & [v4 H4] & _). rewrite H1, H2, H3, H4.
  apply parse_number_inv in H1 as (q1 & Hq1 & ->).
  apply parse_number_inv in H2 as (q2 & Hq2 & ->).
  apply parse_number_inv in H3 as (q3 & Hq3 & ->).
  apply parse_number_inv in H4 as (q4 & Hq4 & ->).
  exists (mkCounts (length items) q1 q2 q3 q4). split.
  - unfold envelope_counts.
    cbn [is_undefined negb orb get_in].
    unfold get_prop. simplify_map_eq. by rewrite Hlen.
  - unfold envelope_counts. cbn [get_in].
    by rewrite Hdata, Hmeta, Hpag, Hq1, Hq2, Hq3, Hq4.
Qed.
End envelopes.

(** ** The runs of the two clients, case by case *)

Section runs.
Context `{StringFormats} (backend : Backend).

(** Every run of [fetchFromStrapi] issues its one request and then
    depends on the answer alone. *)
Lemma fetchFromStrapi_run e path schema options w :
  fetchFromStrapi backend e path schema options w =
    (match backend (request_url e path) (request_init e options) with
     | NetworkFailure => inl TypeError
     | Responds response =>
         if ok response then
           match body response with
           | None => inl SyntaxError
           | Some rawData =>
               match safeParse schema rawData with
               | inl issues =>
                   inl (StrapiError "Invalid data received from Strapi" 500
                          (Some (ZodError issues)))
               | inr value => inr value
               end
           end
         else inl (StrapiError ("Strapi API error: " +:+ statusText response)
                     (status response) None)
     end,
     sent w (request_url e path) (request_init e options)).
Proof.
  unfold fetchFromStrapi, mbind, M_bind, fetch, request_url, request_init, sent.
  destruct (backend _ _) as [response|]; [|done].
  destruct (ok response); simpl; [|done].
  unfold Response_json, try_catch, lift, parse.
  destruct (body response) as [rawData|]; [|done].
  by destruct (safeParse schema rawData).
Qed.

(** The same for the plain helper, with the console records it writes. *)
Lemma fetchAPI_run process_env path options w :
  let url := STRAPI_URL process_env +:+ "/api" +:+ path in
  let init :=
    spread_init (mkInit None (Some {[ "Content-Type" := "application/json" ]}) None) options in
  let caught (e : exn) := [LogStr "Strapi API fetch error:"; LogExn e] in
  fetchAPI backend process_env path options w =
    match backend url init with
    | NetworkFailure =>
        (inl TypeError,
         mkWorld (requests w ++ [(url, init)]) (console w ++ [caught TypeError]))
    | Responds response =>
        if ok response then
          match body response with
          | None =>
              (inl SyntaxError,
               mkWorld (requests w ++ [(url, init)]) (console w ++ [caught SyntaxError]))
          | Some value => (inr value, sent w url init)
          end
        else
          let e := Error ("Strapi API error: " +:+ pretty (status response)) in
          (inl e,
           mkWorld (requests w ++ [(url, init)])
             ((console w
               ++ [[LogStr ("Strapi API error: " +:+ pretty (status response)
                            +:+ " " +:+ statusText response)]])
              ++ [caught e]))
    end.
Proof.
  unfold fetchAPI, try_catch, mbind, M_bind, fetch, sent. simpl.
  destruct (backend _ _) as [response|]; [|done].
  destruct (ok response); simpl; [|done].
  unfold Response_json, lift.
  by destruct (body response).
Qed.
End runs.

(** ** The request [fetchFromStrapi] issues *)

Section request.
Context `{StringFormats} (backend : Backend).

(** One request per call, whatever the answer; nothing is written to the
    console. *)
Lemma fetchFromStrapi_world e path schema options w :
  (fetchFromStrapi backend e path schema options w).2
  = sent w (request_url e path) (request_init e options).
Proof. by rewrite fetchFromStrapi_run. Qed.

(** Without [headers] among the options, the request has the shape the
    interface describes: the joined URL, GET unless a method is given, the
    JSON content type, and the bearer token exactly when one is set and not
    empty. *)
Lemma request_shape_without_option_headers e path method body :
  let options := mkInit method None body in
  let init := request_init e options in
  request_url e path = NEXT_PUBLIC_STRAPI_URL e +:+ "/api" +:+ path
  ∧ request_method init = default "GET" method
  ∧ (∃ h, init_headers init = Some h
      ∧ h !! "Content-Type" = Some "application/json"
      ∧ h !! "Authorization" =
          match STRAPI_API_TOKEN e with
          | None | Some "" => None
          | Some t => Some ("Bearer " +:+ t)
          end).
Proof.
  intros options init. subst options init.
  unfold request_init, spread_init, request_method, merged_headers.
  cbn [init_method init_headers init_body]. split_and!.
  - done.
  - by destruct method.
  - eexists. split; [done|]. cbn [default]. rewrite (left_id ∅ (∪)). unfold authorization.
    destruct (STRAPI_API_TOKEN e) as [[|c t]|]; rewrite ?(left_id ∅ (∪)).
    + split; [apply lookup_singleton_eq | done].
    + split; [by rewrite lookup_union_r | by apply lookup_union_Some_l, lookup_singleton_eq].
    + split; [apply lookup_singleton_eq | done].
Qed.

(** With [headers] among the options, the request carries those headers and
    no others: the spread of [options] replaces the merged [headers]. *)
Lemma request_init_option_headers e method h body :
  request_init e (mkInit method (Some h) body) = mkInit method (Some h) body.
Proof.
  unfold request_init, spread_init. cbn [init_method init_headers init_body].
  by destruct method, body.
Qed.
End request.

(** C5 (at the failing input): with a token configured and options that add
    the header X-Request-Id, [fetchFromStrapi] issues one request to the
    joined URL whose headers are the options' alone: neither Content-Type
    nor Authorization is sent. *)
Theorem option_headers_drop_content_type_and_authorization :
  let run := fetchFromStrapi (H := Formats.zod3)
               (Scenario.always (Scenario.ok_json Scenario.articles_body))
               Scenario.token_env "/articles?populate=*"
               (strapiCollectionSchema articleSchema) Scenario.traced initial in
  ∃ h,
    requests run.2
    = [("http://localhost:1337/api/articles?populate=*", mkInit None (Some h) None)]
    ∧ h !! "X-Request-Id" = Some "42"
    ∧ h !! "Content-Type" = None
    ∧ h !! "Authorization" = None.
Proof.
  intros run. subst run. rewrite fetchFromStrapi_world. unfold Scenario.traced.
  rewrite request_init_option_headers.
  eexists. split; [reflexivity|]. split_and!.
  - apply lookup_singleton_eq.
  - by apply lookup_singleton_ne.
  - by apply lookup_singleton_ne.
Qed.

(** ** Failures of the validated client *)

(** C4: a response whose status is not a success makes [fetchFromStrapi]
    throw a [StrapiError] that carries the status code, with the status
    text in its message, after exactly one request: the list of requests
    grows by the one request and nothing else. *)
Theorem non_success_status_raises_StrapiError `{StringFormats}
    (backend : Backend) e path schema options w response :
  backend (request_url e path) (request_init e options) = Responds response →
  ok response = false →
  let run := fetchFromStrapi backend e path schema options w in
  run.1 = inl (StrapiError ("Strapi API error: " +:+ statusText response)
                 (status response) None)
  ∧ requests run.2 = requests w ++ [(request_url e path, request_init e options)].
Proof.
  intros Hresp Hok. cbv zeta. rewrite fetchFromStrapi_run, Hresp, Hok. done.
Qed.

(** The 404 scenario. *)
Lemma http_404_raises_status_404 :
  let run := fetchFromStrapi (H := Formats.zod3) (Scenario.always Scenario.not_found)
               Scenario.local_env "/articles?populate=*"
               (strapiCollectionSchema articleSchema) no_options initial in
  run.1 = inl (StrapiError "Strapi API error: Not Found" 404 None)
  ∧ requests run.2
    = [("http://localhost:1337/api/articles?populate=*",
        mkInit None (Some Scenario.content_type_only) None)].
Proof.
  exact (non_success_status_raises_StrapiError (H := Formats.zod3)
           (Scenario.always Scenario.not_found) Scenario.local_env "/articles?populate=*"
           (strapiCollectionSchema articleSchema) no_options initial Scenario.not_found
           eq_refl eq_refl).
Defined.

(** C7: with the backend fixed, a call's result does not depend on the
    world it starts from; in particular a second call, made in the world
    the first one left, gives the result of the first. *)
Theorem same_request_same_result `{StringFormats}
    (backend : Backend) e path schema options :
  (∀ w1 w2,
     (fetchFromStrapi backend e path schema options w1).1
     = (fetchFromStrapi backend e path schema options w2).1)
  ∧ (∀ w,
       let first := fetchFromStrapi backend e path schema options w in
       let second := fetchFromStrapi backend e path schema options first.2 in
       second.1 = first.1).
Proof.
  split; [intros w1 w2 | intros w first second; subst first second];
    by rewrite !fetchFromStrapi_run.
Qed.

(** ** Diagnostics *)

(** C8 (as stated, refuted): on a 404 the validated client throws and the
    console is as empty as before: no diagnostic record is written. *)
Lemma validated_client_fails_without_diagnostic :
  let run := fetchFromStrapi (H := Formats.zod3) (Scenario.always Scenario.not_found)
               Scenario.local_env "/articles?populate=*"
               (strapiCollectionSchema articleSchema) no_options initial in
  run.1 = inl (StrapiError "Strapi API error: Not Found" 404 None)
  ∧ console run.2 = [].
Proof. intros run. subst run. by rewrite fetchFromStrapi_run. Qed.

(** C8 (amended): [fetchFromStrapi] never writes to the console, whatever
    the outcome; the plain helper [fetchAPI] writes a record that holds the
    error as the last thing it does before it throws that error, for a
    non-success status, a body that is not JSON and a network failure
    alike. *)
Theorem diagnostics_come_from_fetchAPI_only `{StringFormats} (backend : Backend) :
  (∀ e path schema options w,
     console (fetchFromStrapi backend e path schema options w).2 = console w)
  ∧ (∀ process_env path options w error,
       (fetchAPI backend process_env path options w).1 = inl error →
       ∃ earlier,
         console (fetchAPI backend process_env path options w).2
         = console w ++ earlier ++ [[LogStr "Strapi API fetch error:"; LogExn error]]).
Proof.
  split.
  - intros. by rewrite fetchFromStrapi_world.
  - intros process_env path options w error.
    pose proof (fetchAPI_run backend process_env path options w) as Hrun.
    cbv zeta in Hrun. rewrite Hrun. clear Hrun.
    destruct (backend _ _) as [response|].
    + destruct (ok response).
      * destruct (body response); [done|].
        intros [= <-]. by exists [].
      * intros [= <-]. eexists [_]. cbn [snd console]. by rewrite <-(assoc_L (++)).
    + intros [= <-]. by exists [].
Qed.

(** A network failure under [fetchAPI]: one record, then the [TypeError]. *)
Lemma fetchAPI_logs_network_failure :
  ∃ earlier,
    console (fetchAPI (λ _ _, NetworkFailure) ∅ "/posts?populate=*" no_options initial).2
    = console initial ++ earlier ++ [[LogStr "Strapi API fetch error:"; LogExn TypeError]].
Proof.
  exact (proj2 (diagnostics_come_from_fetchAPI_only (H := Formats.zod3) (λ _ _, NetworkFailure))
           ∅ "/posts?populate=*" no_options initial TypeError eq_refl).
Defined.

(** ** The plain helper's base URL *)

(** C9: when NEXT_PUBLIC_STRAPI_API_URL is not set, [fetchAPI] does not
    fail for want of configuration: it issues its request to
    http://localhost:1337, and returns the body of a successful JSON
    response without a word on the console. *)
Theorem fetchAPI_defaults_to_localhost (backend : Backend)
    (process_env : gmap string string) path options w :
  process_env !! "NEXT_PUBLIC_STRAPI_API_URL" = None →
  let url := "http://localhost:1337/api" +:+ path in
  let init :=
    spread_init (mkInit None (Some {[ "Content-Type" := "application/json" ]}) None) options in
  let run := fetchAPI backend process_env path options w in
  STRAPI_URL process_env = "http://localhost:1337"
  ∧ requests run.2 = requests w ++ [(url, init)]
  ∧ (∀ response value,
       backend url init = Responds response → ok response = true →
       body response = Some value → run.1 = inr value ∧ console run.2 = console w).
Proof.
  intros Hunset url init run. subst run.
  assert (STRAPI_URL process_env = "http://localhost:1337") as Hurl
    by (unfold STRAPI_URL; by rewrite Hunset).
  pose proof (fetchAPI_run backend process_env path options w) as Hrun.
  cbv zeta in Hrun. rewrite Hurl in Hrun. rewrite Hrun. clear Hrun.
  change ("http://localhost:1337" +:+ "/api" +:+ path) with url. fold init.
  split; [done|]. split.
  - destruct (backend url init) as [response|]; [|done].
    destruct (ok response); [|done]. by destruct (body response).
  - intros response value -> -> ->. done.
Qed.

(** With an empty environment and a backend that answers every request
    with the articles. *)
Lemma fetchAPI_with_empty_environment :
  let run := fetchAPI (Scenario.always (Scenario.ok_json Scenario.articles_body))
               ∅ "/posts?populate=*" no_options initial in
  STRAPI_URL ∅ = "http://localhost:1337"
  ∧ requests run.2
    = [("http://localhost:1337/api/posts?populate=*",
        mkInit None (Some Scenario.content_type_only) None)]
  ∧ (∀ response value,
       Scenario.always (Scenario.ok_json Scenario.articles_body)
         "http://localhost:1337/api/posts?populate=*"
         (mkInit None (Some Scenario.content_type_only) None) = Responds response →
       ok response = true → body response = Some value →
       run.1 = inr value ∧ console run.2 = console initial).
Proof.
  exact (fetchAPI_defaults_to_localhost
           (Scenario.always (Scenario.ok_json Scenario.articles_body))
           ∅ "/posts?populate=*" no_options initial (lookup_empty _)).
Defined.

(** ** One error class for two kinds of failure *)

(** C10: a body that fails validation makes [fetchFromStrapi] throw a
    [StrapiError] with status 500 and the [ZodError] as its details; a
    response with HTTP status 500 makes it throw a [StrapiError] with
    status 500 too. The two have the same name and status, and differ in
    message and details only. *)
Theorem validation_failure_is_StrapiError_500 `{StringFormats}
    (backend1 backend2 : Backend) e path schema options w
    response1 rawData issues response2 :
  backend1 (request_url e path) (request_init e options) = Responds response1 →
  ok response1 = true →
  body response1 = Some rawData →
  safeParse schema rawData = inl issues →
  backend2 (request_url e path) (request_init e options) = Responds response2 →
  status response2 = 500 →
  ∃ invalid failed,
    (fetchFromStrapi backend1 e path schema options w).1 = inl invalid
    ∧ (fetchFromStrapi backend2 e path schema options w).1 = inl failed
    ∧ invalid = StrapiError "Invalid data received from Strapi" 500 (Some (ZodError issues))
    ∧ failed = StrapiError ("Strapi API error: " +:+ statusText response2) 500 None
    ∧ exn_name invalid = exn_name failed
    ∧ exn_status invalid = exn_status failed
    ∧ exn_message invalid ≠ exn_message failed
    ∧ exn_details invalid ≠ exn_details failed.
Proof.
  intros Hr1 Hok1 Hbody Hparse Hr2 H500.
  assert (ok response2 = false) as Hok2 by (unfold ok; by rewrite H500).
  eexists _, _. rewrite !fetchFromStrapi_run, Hr1, Hok1, Hbody, Hparse, Hr2, Hok2, H500.
  cbn [fst]. split_and!; done.
Qed.

(** The not-a-uuid body against a server error. *)
Lemma not_a_uuid_and_server_error_share_class_and_status :
  ∃ invalid failed,
    (fetchFromStrapi (H := Formats.zod3)
       (Scenario.always (Scenario.ok_json Scenario.not_a_uuid_body))
       Scenario.local_env "/articles/1" (strapiSingleSchema articleSchema)
       no_options initial).1 = inl invalid
    ∧ (fetchFromStrapi (H := Formats.zod3) (Scenario.always Scenario.server_error)
         Scenario.local_env "/articles/1" (strapiSingleSchema articleSchema)
         no_options initial).1 = inl failed
    ∧ invalid = StrapiError "Invalid data received from Strapi" 500
                  (Some (ZodError [
                     mkIssue [PKey "data"; PKey "id"] (invalid_string CheckUuid);
                     mkIssue [PKey "data"; PKey "attributes"]
                       (invalid_type (ExpType PT_object) PT_undefined);
                     mkIssue [PKey "meta"] (invalid_type (ExpType PT_object) PT_undefined)]))
    ∧ failed = StrapiError "Strapi API error: Internal Server Error" 500 None
    ∧ exn_name invalid = exn_name failed
    ∧ exn_status invalid = exn_status failed
    ∧ exn_message invalid ≠ exn_message failed
    ∧ exn_details invalid ≠ exn_details failed.
Proof.
  exact (validation_failure_is_StrapiError_500 (H := Formats.zod3)
           (Scenario.always (Scenario.ok_json Scenario.not_a_uuid_body))
           (Scenario.always Scenario.server_error)
           Scenario.local_env "/articles/1" (strapiSingleSchema articleSchema)
           no_options initial (Scenario.ok_json Scenario.not_a_uuid_body)
           Scenario.not_a_uuid_body _ Scenario.server_error
           eq_refl eq_refl eq_refl eq_refl eq_refl eq_refl).
Defined.

(** ** The environment *)

Section environment.
Context `{StringFormats}.

Lemma get_prop_env (process_env : gmap string string) k :
  get_prop (JStr <$> process_env) k
  = match process_env !! k with Some s => JStr s | None => JUndefined end.
Proof. unfold get_prop. rewrite lookup_fmap. by destruct (process_env !! k). Qed.

Lemma has_prop_env (process_env : gmap string string) k :
  has_prop (JStr <$> process_env) k = bool_decide (is_Some (process_env !! k)).
Proof. unfold has_prop. rewrite lookup_fmap. apply bool_decide_ext. by rewrite fmap_is_Some. Qed.

(** Every value [envSchema] produces reads as an [Env]. *)
Lemma env_typed (process_env : gmap string string) v :
  parse envSchema (env_object process_env) = inr v → is_Some (as_Env v).
Proof.
  unfold parse, safeParse, env_object, envSchema.
  rewrite _parse_object. cbn [parse_shape]. rewrite !get_prop_env, !has_prop_env.
  destruct (process_env !! "NODE_ENV") as [mode|]; [|done].
  destruct (process_env !! "NEXT_PUBLIC_STRAPI_URL") as [url|];
    [|cbn [_parse snd]; case_bool_decide; done].
  cbn [_parse snd fst]. case_bool_decide; [|done].
  unfold string_issues. cbn [omap list_omap check_test].
  destruct (url_test url); [|by destruct (process_env !! "STRAPI_API_TOKEN")].
  destruct (process_env !! "STRAPI_API_TOKEN") as [token|];
    cbn; intros [= <-]; unfold get_prop; by simplify_map_eq.
Qed.

(** A mode among the three, a URL that passes the test, and whatever the
    token variable holds: the configuration has exactly these. *)
Lemma env_valid (process_env : gmap string string) mode url :
  process_env !! "NODE_ENV" = Some mode →
  mode ∈ ["development"; "test"; "production"] →
  process_env !! "NEXT_PUBLIC_STRAPI_URL" = Some url →
  url_test url = true →
  env process_env = inr (mkEnv mode url (process_env !! "STRAPI_API_TOKEN")).
Proof.
  intros Hm Hin Hu Ht.
  unfold env, parse, safeParse, env_object, envSchema.
  rewrite _parse_object. cbn [parse_shape]. rewrite !get_prop_env, !has_prop_env, Hm, Hu.
  cbn [_parse]. rewrite bool_decide_eq_true_2 by done.
  unfold string_issues. cbn [omap list_omap check_test]. rewrite Ht.
  destruct (process_env !! "STRAPI_API_TOKEN") as [t|] eqn:Htok;
    cbn; unfold get_prop; by simplify_map_eq.
Qed.

(** A required variable that is not set is reported, by its name. *)
Lemma env_missing (process_env : gmap string string) k :
  k ∈ ["NODE_ENV"; "NEXT_PUBLIC_STRAPI_URL"] →
  process_env !! k = None →
  ∃ issues expected,
    env process_env = inl (ZodError issues)
    ∧ mkIssue [PKey k] (invalid_type expected PT_undefined) ∈ issues.
Proof.
  intros Hk Hnone.
  unfold env, parse, safeParse, env_object, envSchema.
  rewrite _parse_object. cbn [parse_shape]. rewrite !get_prop_env, !has_prop_env.
  repeat (apply elem_of_cons in Hk as [->|Hk]); [| |by apply elem_of_nil in Hk];
    rewrite Hnone.
  - destruct (_parse (ZString _) _ _) as [is2 r2].
    destruct (_parse (ZOptional _) _ _) as [is3 r3].
    cbn [_parse getParsedType fst snd app mergeObjectSync pair_value].
    eexists _, _. split; [done|]. apply elem_of_cons. by left.
  - destruct (_parse (ZEnum _) _ _) as [is1 r1].
    destruct (_parse (ZOptional _) _ _) as [is3 r3].
    cbn [_parse getParsedType fst snd app].
    eexists _, _. split.
    + destruct r1; cbn [mergeObjectSync pair_value]; reflexivity.
    + apply elem_of_app. right. apply elem_of_cons. by left.
Qed.
End environment.

(** C2: for an environment whose NODE_ENV is one of the three modes and
    whose NEXT_PUBLIC_STRAPI_URL passes the URL test, [env] is the
    configuration with exactly that mode, that URL and the token variable
    as it is (set or not); for an environment in which a required variable
    is not set, [env] throws a [ZodError] that names the variable, and a
    call of the client module ends with that error in an unchanged world:
    no request is issued. *)
Theorem env_matches_validated_inputs `{StringFormats} (process_env : gmap string string) :
  (∀ mode url,
     process_env !! "NODE_ENV" = Some mode →
     mode ∈ ["development"; "test"; "production"] →
     process_env !! "NEXT_PUBLIC_STRAPI_URL" = Some url →
     url_test url = true →
     env process_env = inr (mkEnv mode url (process_env !! "STRAPI_API_TOKEN")))
  ∧ (∀ k,
       k ∈ ["NODE_ENV"; "NEXT_PUBLIC_STRAPI_URL"] →
       process_env !! k = None →
       ∃ issues expected,
         env process_env = inl (ZodError issues)
         ∧ mkIssue [PKey k] (invalid_type expected PT_undefined) ∈ issues
         ∧ ∀ (backend : Backend) path schema options w,
             with_env process_env (λ e, fetchFromStrapi backend e path schema options) w
             = (inl (ZodError issues), w)).
Proof.
  split.
  - apply env_valid.
  - intros k Hk Hnone. destruct (env_missing process_env k Hk Hnone) as (issues & expected & He & Hin).
    exists issues, expected. split_and!; [done..|].
    intros. unfold with_env, mbind, M_bind, lift. by rewrite He.
Qed.

(** A complete environment, and one without NEXT_PUBLIC_STRAPI_URL. *)
Lemma env_of_two_environments :
  env (H := Formats.zod3) Scenario.complete_process_env
  = inr (mkEnv "development" "http://localhost:1337" None)
  ∧ ∃ issues expected,
      env (H := Formats.zod3) Scenario.process_env_without_url = inl (ZodError issues)
      ∧ mkIssue [PKey "NEXT_PUBLIC_STRAPI_URL"] (invalid_type expected PT_undefined) ∈ issues
      ∧ ∀ (backend : Backend) path schema options w,
          with_env (H := Formats.zod3) Scenario.process_env_without_url
            (λ e, fetchFromStrapi (H := Formats.zod3) backend e path schema options) w
          = (inl (ZodError issues), w).
Proof.
  split.
  - refine (proj1 (env_matches_validated_inputs (H := Formats.zod3)
                     Scenario.complete_process_env)
              "development" "http://localhost:1337" eq_refl _ eq_refl eq_refl).
    apply elem_of_cons. by left.
  - refine (proj2 (env_matches_validated_inputs (H := Formats.zod3)
                     Scenario.process_env_without_url)
              "NEXT_PUBLIC_STRAPI_URL" _ eq_refl).
    apply elem_of_cons. right. apply elem_of_cons. by left.
Defined.

(** ** Bodies that fail validation *)

(** C1 (as stated, refuted): a 200 whose body is not JSON makes
    [response.json()] throw, outside the [try] of [fetchFromStrapi]: the
    caller gets the [SyntaxError] itself, not a [StrapiError], and no
    validation detail. *)
Lemma non_json_body_raises_SyntaxError :
  let run := fetchFromStrapi (H := Formats.zod3) (Scenario.always Scenario.ok_not_json)
               Scenario.local_env "/articles/1" (strapiSingleSchema articleSchema)
               no_options initial in
  run.1 = inl SyntaxError
  ∧ exn_name SyntaxError ≠ "StrapiError"
  ∧ exn_details SyntaxError = None.
Proof. intros run. subst run. by rewrite fetchFromStrapi_run. Qed.

(** Only validated values are returned: a value comes from a successful
    response whose JSON body the schema accepts, and is the parsed value. *)
Lemma fetchFromStrapi_returns_only_validated `{StringFormats}
    (backend : Backend) e path schema options w value :
  (fetchFromStrapi backend e path schema options w).1 = inr value →
  ∃ response rawData,
    backend (request_url e path) (request_init e options) = Responds response
    ∧ ok response = true
    ∧ body response = Some rawData
    ∧ accepts schema rawData = true
    ∧ safeParse schema rawData = inr value.
Proof.
  rewrite fetchFromStrapi_run. cbn [fst].
  destruct (backend _ _) as [response|]; [|done].
  destruct (ok response) eqn:Hok; [|done].
  destruct (body response) as [rawData|] eqn:Hbody; [|done].
  destruct (safeParse schema rawData) as [issues|v] eqn:Hparse; [done|].
  intros [= ->]. exists response, rawData. split_and!; [done..| |done].
  unfold accepts. unfold safeParse in Hparse.
  by destruct (_parse schema [] rawData) as [issues [v|v|]].
Qed.

(** C1 (amended): a successful response whose JSON body the schema does not
    accept makes [fetchFromStrapi] throw the [StrapiError] with status 500
    whose details are the [ZodError] of the parse, with at least one issue
    (each issue has the path of the offending value); no value is
    returned. *)
Theorem schema_violation_raises_StrapiError_with_issues `{StringFormats}
    (backend : Backend) e path schema options w response rawData :
  backend (request_url e path) (request_init e options) = Responds response →
  ok response = true →
  body response = Some rawData →
  accepts schema rawData = false →
  ∃ issues,
    issues ≠ []
    ∧ safeParse schema rawData = inl issues
    ∧ (fetchFromStrapi backend e path schema options w).1
      = inl (StrapiError "Invalid data received from Strapi" 500 (Some (ZodError issues))).
Proof.
  intros Hresp Hok Hbody Hviolates.
  rewrite fetchFromStrapi_run, Hresp, Hok, Hbody.
  destruct (safeParse schema rawData) as [issues|value] eqn:Hparse.
  - exists issues. split_and!; [|done..]. by eapply safeParse_issues.
  - unfold accepts in Hviolates. unfold safeParse in Hparse.
    by destruct (_parse schema [] rawData) as [issues [v|v|]].
Qed.

(** The not-a-uuid scenario: among the issues is the one at [data.id], for
    the uuid check. *)
Lemma not_a_uuid_is_reported_at_data_id :
  ∃ issues,
    (fetchFromStrapi (H := Formats.zod3)
       (Scenario.always (Scenario.ok_json Scenario.not_a_uuid_body))
       Scenario.local_env "/articles/1" (strapiSingleSchema articleSchema)
       no_options initial).1
    = inl (StrapiError "Invalid data received from Strapi" 500 (Some (ZodError issues)))
    ∧ mkIssue [PKey "data"; PKey "id"] (invalid_string CheckUuid) ∈ issues.
Proof.
  destruct (schema_violation_raises_StrapiError_with_issues (H := Formats.zod3)
              (Scenario.always (Scenario.ok_json Scenario.not_a_uuid_body))
              Scenario.local_env "/articles/1" (strapiSingleSchema articleSchema)
              no_options initial (Scenario.ok_json Scenario.not_a_uuid_body)
              Scenario.not_a_uuid_body eq_refl eq_refl eq_refl eq_refl)
    as (issues & _ & Hparse & Hrun).
  exists issues. split; [exact Hrun|].
  injection Hparse as <-. apply elem_of_cons. by left.
Defined.

(** ** What a successful call returns *)

(** C3 (as stated, refuted): a body that matches the schema and carries an
    attribute the schema does not declare is returned without it. *)
Lemma undeclared_attribute_is_dropped :
  let body := Scenario.single Scenario.article_with_author in
  let run := fetchFromStrapi (H := Formats.zod3) (Scenario.always (Scenario.ok_json body))
               Scenario.local_env "/articles/1" (strapiSingleSchema articleSchema)
               no_options initial in
  run.1 = inr (Scenario.single Scenario.article)
  ∧ get_in ["data"; "attributes"; "author"] body = JStr "Ann"
  ∧ get_in ["data"; "attributes"; "author"] (Scenario.single Scenario.article) = JUndefined.
Proof. intros body run. subst body run. rewrite fetchFromStrapi_run. by vm_compute. Qed.

(** C3 (amended): for every schema built from the constructors of the schemas
    of the sources (a [zschema]), when the body of a successful response matches the
    schema, [fetchFromStrapi] returns the body without the properties the
    schema does not declare. Nothing else is changed: the value is the body
    with object properties left out, and it is the body itself when the
    body has no property besides the declared ones. *)
Theorem validated_value_is_the_body_stripped `{StringFormats}
    (backend : Backend) e path schema options w response rawData value :
  backend (request_url e path) (request_init e options) = Responds response →
  ok response = true →
  body response = Some rawData →
  safeParse schema rawData = inr value →
  (fetchFromStrapi backend e path schema options w).1 = inr value
  ∧ value = strip schema rawData
  ∧ narrows rawData value
  ∧ (only_declared schema rawData → value = rawData).
Proof.
  intros Hresp Hok Hbody Hparse.
  rewrite fetchFromStrapi_run, Hresp, Hok, Hbody, Hparse. split; [done|].
  unfold safeParse in Hparse.
  destruct (_parse schema [] rawData) as [issues r] eqn:Hr.
  assert (return_value (_parse schema [] rawData).2 = Some value) as Hvalue.
  { rewrite Hr. by destruct r; simplify_eq. }
  split_and!; [by eapply parse_strip | by eapply parse_narrows | by eapply parse_only_declared].
Qed.

(** The articles scenario: the one article and the pagination, as sent. *)
Lemma articles_scenario_returns_the_body :
  (fetchFromStrapi (H := Formats.zod3)
     (Scenario.always (Scenario.ok_json Scenario.articles_body))
     Scenario.local_env "/articles?populate=*" (strapiCollectionSchema articleSchema)
     no_options initial).1
  = inr (Scenario.collection [Scenario.article] (Scenario.pagination 1 25 1 1))
  ∧ Scenario.articles_body = strip (strapiCollectionSchema articleSchema) Scenario.articles_body
  ∧ narrows Scenario.articles_body Scenario.articles_body
  ∧ (only_declared (strapiCollectionSchema articleSchema) Scenario.articles_body →
     Scenario.articles_body = Scenario.articles_body).
Proof.
  exact (validated_value_is_the_body_stripped (H := Formats.zod3)
           (Scenario.always (Scenario.ok_json Scenario.articles_body))
           Scenario.local_env "/articles?populate=*" (strapiCollectionSchema articleSchema)
           no_options initial (Scenario.ok_json Scenario.articles_body)
           Scenario.articles_body Scenario.articles_body
           eq_refl eq_refl eq_refl eq_refl).
Defined.

(** ** Pagination *)

(** C6 (as stated, refuted): an envelope with two items on a page of size
    one, five pages and a total of zero is validated and returned as it
    is. *)
Lemma inconsistent_pagination_is_returned :
  let run := fetchFromStrapi (H := Formats.zod3)
               (Scenario.always (Scenario.ok_json Scenario.inconsistent_body))
               Scenario.local_env "/articles?populate=*"
               (strapiCollectionSchema articleSchema) no_options initial in
  run.1 = inr Scenario.inconsistent_body
  ∧ pagination_consistent Scenario.inconsistent_body = false.
Proof. intros run. subst run. rewrite fetchFromStrapi_run. by vm_compute. Qed.

(** C6 (amended): a collection envelope returned by [fetchFromStrapi] has
    a data sequence and four pagination numbers, and they are those of the
    response body: the sequence has the body's length and the numbers are
    the body's. The envelope is consistent exactly when the body is. *)
Theorem envelope_counts_are_those_of_the_body `{StringFormats}
    (backend : Backend) e path itemSchema options w response rawData envelope :
  backend (request_url e path) (request_init e options) = Responds response →
  body response = Some rawData →
  (fetchFromStrapi backend e path (strapiCollectionSchema itemSchema) options w).1
  = inr envelope →
  (∃ counts, envelope_counts envelope = Some counts ∧ envelope_counts rawData = Some counts)
  ∧ pagination_consistent envelope = pagination_consistent rawData.
Proof.
  intros Hresp Hbody. rewrite fetchFromStrapi_run, Hresp, Hbody. cbn [fst].
  destruct (ok response); [|done].
  destruct (safeParse _ rawData) as [issues|value] eqn:Hparse; [done|]. intros [= ->].
  unfold safeParse in Hparse.
  destruct (_parse _ [] rawData) as [issues r] eqn:Hr.
  assert (return_value (_parse (strapiCollectionSchema itemSchema) [] rawData).2
          = Some envelope) as Hvalue.
  { rewrite Hr. by destruct r; simplify_eq. }
  apply collection_counts in Hvalue as (counts & Henv & Hraw).
  split; [by exists counts|]. unfold pagination_consistent. by rewrite Henv, Hraw.
Qed.

(** An article with an undeclared attribute: the envelope differs from the
    body, its counts do not. *)
Lemma counts_survive_narrowing :
  (∃ counts,
     envelope_counts (Scenario.collection [Scenario.article] (Scenario.pagination 1 25 1 1))
     = Some counts
     ∧ envelope_counts
         (Scenario.collection [Scenario.article_with_author] (Scenario.pagination 1 25 1 1))
       = Some counts)
  ∧ pagination_consistent
      (Scenario.collection [Scenario.article] (Scenario.pagination 1 25 1 1))
    = pagination_consistent
        (Scenario.collection [Scenario.article_with_author] (Scenario.pagination 1 25 1 1)).
Proof.
  exact (envelope_counts_are_those_of_the_body (H := Formats.zod3)
           (Scenario.always
              (Scenario.ok_json
                 (Scenario.collection [Scenario.article_with_author]
                    (Scenario.pagination 1 25 1 1))))
           Scenario.local_env "/articles?populate=*" articleSchema no_options initial
           (Scenario.ok_json
              (Scenario.collection [Scenario.article_with_author]
                 (Scenario.pagination 1 25 1 1)))
           (Scenario.collection [Scenario.article_with_author] (Scenario.pagination 1 25 1 1))
           (Scenario.collection [Scenario.article] (Scenario.pagination 1 25 1 1))
           eq_refl eq_refl eq_refl).
Defined.

(** ** More of the sources: validation again *)

(** Whether a string has issues does not depend on the path. *)
Lemma string_issues_nil_path `{StringFormats} path path' checks s :
  string_issues path checks s = [] → string_issues path' checks s = [].
Proof.
  unfold string_issues. induction checks as [|c checks IH]; [done|].
  cbn [omap list_omap]. destruct (check_test c s); [apply IH|done].
Qed.

(** Merging results that are all [OK] gives the array of their values. *)
Lemma mergeArray_all_OK d acc vals :
  mergeArray d acc (OK <$> vals) = if d then DIRTY (JArr (acc ++ vals)) else OK (JArr (acc ++ vals)).
Proof.
  revert acc. induction vals as [|v vals IH]; intros acc; cbn [fmap list_fmap mergeArray].
  - by rewrite app_nil_r.
  - rewrite IH. by rewrite <-(assoc_L (++)).
Qed.

(** An [OK] array comes from results that are all [OK]. *)
Lemma mergeArray_OK_inv acc rs v :
  mergeArray false acc rs = OK v → ∃ vals, rs = OK <$> vals ∧ v = JArr (acc ++ vals).
Proof.
  intros Hm.
  assert (is_OK (mergeArray false acc rs) = true) as Hok by by rewrite Hm.
  rewrite mergeArray_is_OK in Hok. cbn in Hok.
  assert (∃ vals, rs = OK <$> vals) as [vals ->].
  { clear Hm. induction rs as [|[x|x|] rs IH]; cbn in Hok; try done.
    - by exists [].
    - destruct IH as [vals ->]; [done|]. by exists (x :: vals). }
  exists vals. split; [done|]. rewrite mergeArray_all_OK in Hm. by injection Hm as <-.
Qed.

(** Each value of results that are all [OK] is the value of some call. *)
Lemma imap_snd_OK {A} (f : nat → A → list ZodIssue * ParseReturn) items vals :
  (imap f items).*2 = OK <$> vals → Forall (λ v, ∃ j x, (f j x).2 = OK v) vals.
Proof.
  revert f vals. induction items as [|x items IH]; intros f [|v vals];
    cbn [imap fmap list_fmap]; try done.
  intros [= Hx Hrest]. constructor; [by eauto|].
  apply IH in Hrest. eapply Forall_impl; [done|]. cbn. intros w (j & y & Hw). eauto.
Qed.

(** Values that every call maps to themselves give results that are all
    [OK], with these values. *)
Lemma imap_snd_OK_intro (f : nat → jsval → list ZodIssue * ParseReturn) vals :
  Forall (λ v, ∀ i, (f i v).2 = OK v) vals → (imap f vals).*2 = OK <$> vals.
Proof.
  revert f. induction vals as [|x vals IH]; intros f Hf; [done|].
  apply Forall_cons in Hf as [Hx Hf]. cbn [imap fmap list_fmap]. f_equal; [done|].
  apply IH. eapply Forall_impl; [done|]. cbn. intros v Hv i. apply Hv.
Qed.

(** The stored object at a key that no pair has, and, for distinct keys,
    at the key of a pair. *)
Lemma store_pairs_lookup_notin acc pairs k :
  k ∉ pair_key <$> pairs → store_pairs acc pairs !! k = acc !! k.
Proof.
  revert acc. induction pairs as [|p pairs IH]; intros acc Hk; [done|].
  cbn [fmap list_fmap] in Hk. apply not_elem_of_cons in Hk as [Hne Hk].
  cbn [store_pairs foldl]. change (foldl store_pair ?a ?l) with (store_pairs a l).
  rewrite IH by done. unfold store_pair.
  destruct (return_value _); [|done]. destruct (_ || _); [|done].
  by rewrite lookup_insert_ne.
Qed.

Lemma store_pairs_lookup_in acc pairs p x :
  NoDup (pair_key <$> pairs) → p ∈ pairs → return_value (pair_value p) = Some x →
  store_pairs acc pairs !! pair_key p
  = if negb (is_undefined x) || pair_alwaysSet p then Some x else acc !! pair_key p.
Proof.
  revert acc. induction pairs as [|q pairs IH]; intros acc Hnd Hp Hx; [by apply elem_of_nil in Hp|].
  cbn [fmap list_fmap] in Hnd. apply NoDup_cons in Hnd as [Hq Hnd].
  cbn [store_pairs foldl]. change (foldl store_pair ?a ?l) with (store_pairs a l).
  apply elem_of_cons in Hp as [->|Hp].
  - rewrite store_pairs_lookup_notin by done. unfold store_pair. rewrite Hx.
    destruct (_ || _); [|done]. by rewrite lookup_insert_eq.
  - rewrite IH by done. destruct (_ || _); [done|].
    assert (pair_key q ≠ pair_key p) as Hne.
    { intros Heq. apply Hq. rewrite Heq. by apply list_elem_of_fmap_2. }
    unfold store_pair. destruct (return_value (pair_value q)); [|done].
    destruct (_ || _); [|done]. by rewrite lookup_insert_ne.
Qed.

(** Pairs with the values of [OK] pairs, present exactly where those were
    stored, merge into the object stored for those. *)
Lemma mergeObjectSync_again acc pairs pairs' :
  Forall2 (λ p p', pair_key p' = pair_key p ∧
                   ∃ x, pair_value p = OK x ∧ pair_value p' = OK x ∧
                        pair_alwaysSet p' = negb (is_undefined x) || pair_alwaysSet p)
    pairs pairs' →
  mergeObjectSync false acc pairs' = OK (JObj (store_pairs acc pairs)).
Proof.
  intros Hpairs. revert acc.
  induction Hpairs as [|p p' pairs pairs' (Hk & x & Hx & Hx' & Ha) _ IH]; intros acc; [done|].
  cbn [mergeObjectSync store_pairs foldl]. change (foldl store_pair ?a ?l) with (store_pairs a l).
  rewrite Hx', IH. do 2 f_equal. unfold store_pair. rewrite Hx, Ha, Hk. cbn [return_value].
  by destruct (is_undefined x), (pair_alwaysSet p).
Qed.

Section revalidation.
Context `{StringFormats}.

(** The pairs of a shape, one per key. *)
Lemma parse_shape_pairs o path shape :
  (parse_shape o path shape).2
  = (λ ks, mkPair ks.1 (_parse ks.2 (path ++ [PKey ks.1]) (get_prop o ks.1)).2
             (has_prop o ks.1)) <$> shape.
Proof.
  induction shape as [|[key validator] rest IH]; [done|].
  cbn [parse_shape snd fmap list_fmap fst]. by rewrite IH.
Qed.

(** [distinct_keys] on an object, with the loop over the shape as a
    [Forall]. *)
Lemma distinct_keys_object shape :
  distinct_keys (ZObject shape) = true
  ↔ NoDup shape.*1 ∧ Forall (λ ks, distinct_keys ks.2 = true) shape.
Proof.
  cbn [distinct_keys]. rewrite andb_true_iff, bool_decide_eq_true.
  apply and_iff_compat_l.
  induction shape as [|[key validator] rest IH]; [by split; [constructor|]|].
  rewrite Forall_cons, andb_true_iff, IH. done.
Qed.

(** Under distinct keys, a value that came out [OK] goes in [OK] and comes
    out unchanged. *)
Lemma parse_again schema :
  distinct_keys schema = true →
  ∀ path data v, (_parse schema path data).2 = OK v →
  ∀ path', (_parse schema path' v).2 = OK v.
Proof.
  induction schema as [checks| |values| |inner IH|brand inner IH|item IH|shape IH]
    using zschema_nested_ind; intros Hwf path data v.
  - destruct data; cbn [_parse snd]; try done.
    destruct (string_issues path checks s) eqn:Hs; [|done]. intros [= <-] path'.
    cbn [_parse snd]. by rewrite (string_issues_nil_path path path').
  - destruct data; cbn [_parse snd]; try done. by intros [= <-].
  - destruct data; cbn [_parse snd]; try done.
    case_bool_decide as Hin; [|done]. intros [= <-] path'. cbn [_parse snd].
    by rewrite bool_decide_eq_true_2.
  - by intros [= <-].
  - cbn [distinct_keys] in Hwf.
    destruct data; cbn [_parse snd]; [by intros [= <-]|..];
      intros Hv path'; (destruct v; [done|..]); cbn [_parse]; by eapply IH.
  - cbn [distinct_keys] in Hwf. by apply IH.
  - cbn [distinct_keys] in Hwf.
    destruct data as [| | | | |items|]; cbn [_parse snd]; try done.
    intros (vals & Hrs & ->)%mergeArray_OK_inv path'. cbn [app _parse snd].
    apply imap_snd_OK in Hrs.
    rewrite (imap_snd_OK_intro _ vals), mergeArray_all_OK; [done|].
    eapply Forall_impl; [done|]. cbn. intros w (j & x & Hw) i. by eapply IH.
  - apply distinct_keys_object in Hwf as [Hnd Hwf].
    destruct data as [| | | | | |o]; try done. rewrite _parse_object. cbn [snd].
    intros Hm path'.
    assert (is_OK (mergeObjectSync false ∅ (parse_shape o path shape).2) = true) as Hok
      by by rewrite Hm.
    rewrite mergeObjectSync_is_OK in Hok. cbn [negb andb] in Hok.
    assert (return_value (mergeObjectSync false ∅ (parse_shape o path shape).2) = Some v)
      as [-> _]%mergeObjectSync_value by by rewrite Hm.
    rewrite _parse_object. cbn [snd]. apply mergeObjectSync_again.
    set (o' := store_pairs ∅ (parse_shape o path shape).2).
    assert (NoDup (pair_key <$> (parse_shape o path shape).2)) as Hnd'.
    { rewrite parse_shape_pairs, <-list_fmap_compose. exact Hnd. }
    assert (Forall (λ ks, ∃ x,
              (_parse ks.2 (path ++ [PKey ks.1]) (get_prop o ks.1)).2 = OK x
              ∧ (_parse ks.2 (path' ++ [PKey ks.1]) (get_prop o' ks.1)).2 = OK x
              ∧ has_prop o' ks.1 = negb (is_undefined x) || has_prop o ks.1) shape) as Hall.
    { apply Forall_forall. intros [key validator] Hin. cbn [fst snd].
      rewrite parse_shape_pairs, forallb_forall in Hok.
      specialize (Hok (mkPair key (_parse validator (path ++ [PKey key]) (get_prop o key)).2
                         (has_prop o key))).
      cbn [pair_value] in Hok.
      destruct (_parse validator (path ++ [PKey key]) (get_prop o key)).2 as [x| |] eqn:Hx;
        [|exfalso..].
      2,3: (assert (false = true) as Hf; [|done]); apply Hok, list_elem_of_In, list_elem_of_fmap;
        exists (key, validator); cbn [fst snd]; by rewrite Hx.
      clear Hok.
      exists x. split; [done|].
      pose proof (store_pairs_lookup_in ∅ (parse_shape o path shape).2
                    (mkPair key (OK x) (has_prop o key)) x Hnd') as Hlook.
      cbn [pair_key pair_value pair_alwaysSet return_value] in Hlook.
      rewrite lookup_empty in Hlook. fold o' in Hlook.
      assert (o' !! key = if negb (is_undefined x) || has_prop o key then Some x else None)
        as Hkey.
      { apply Hlook; [|done]. rewrite parse_shape_pairs.
        apply list_elem_of_fmap. exists (key, validator). cbn [fst snd]. by rewrite Hx. }
      assert (get_prop o' key = x) as Hget.
      { unfold get_prop. rewrite Hkey.
        destruct (is_undefined x) eqn:Hu; [|done].
        destruct x; try done. by destruct (has_prop o key). }
      split.
      - rewrite Hget.
        apply Forall_forall with (x := (key, validator)) in IH; [|done].
        apply Forall_forall with (x := (key, validator)) in Hwf; [|done].
        by eapply IH.
      - unfold has_prop at 1. rewrite Hkey.
        destruct (negb (is_undefined x) || has_prop o key).
        + by rewrite bool_decide_eq_true_2 by by eexists.
        + by rewrite bool_decide_eq_false_2 by by intros [? [=]]. }
    rewrite !parse_shape_pairs. clearbody o'. clear -Hall.
    induction Hall as [|[key validator] rest (x & Hx & Hx' & Ha) _ IH]; [constructor|].
    cbn [fmap list_fmap fst snd] in *. constructor; [|done].
    cbn [pair_key pair_value pair_alwaysSet]. split; [done|]. exists x. by rewrite Hx, Hx', Ha.
Qed.
End revalidation.

(** ** What the schemas accept *)

(** Two indexed maps with the same outcomes. *)
Lemma imap_snd_ext {A B C} (f g : nat → A → B * C) (l : list A) :
  (∀ i x, (f i x).2 = (g i x).2) → (imap f l).*2 = (imap g l).*2.
Proof.
  revert f g. induction l as [|x l IH]; intros f g Hfg; [done|].
  cbn [imap fmap list_fmap]. f_equal; [apply Hfg|]. apply IH. intros i y. apply Hfg.
Qed.

(** The results of an indexed map are all [OK] exactly when every element
    is fine. *)
Lemma forallb_imap_OK {A} (f : nat → A → list ZodIssue * ParseReturn) (P : A → Prop) l :
  (∀ i x, is_OK (f i x).2 = true ↔ P x) →
  forallb is_OK (imap f l).*2 = true ↔ Forall P l.
Proof.
  revert f. induction l as [|x l IH]; intros f Hf; [by split; [constructor|]|].
  cbn [imap fmap list_fmap forallb]. rewrite andb_true_iff, Forall_cons, Hf.
  apply and_iff_compat_l, IH. intros i y. apply Hf.
Qed.

Section acceptance.
Context `{StringFormats}.

(** A string has no issue exactly when it passes every check. *)
Lemma string_issues_nil path checks s :
  string_issues path checks s = [] ↔ Forall (λ c, check_test c s = true) checks.
Proof.
  unfold string_issues. induction checks as [|c checks IH]; [by split; [constructor|]|].
  cbn [omap list_omap]. rewrite Forall_cons. destruct (check_test c s).
  - rewrite IH. by split; [|intros [_ ?]].
  - by split; [|intros [? _]].
Qed.

(** The outcome of [_parse] does not depend on the path; the paths of the
    issues do. *)
Lemma parse_outcome_path schema : ∀ path path' data,
  (_parse schema path data).2 = (_parse schema path' data).2.
Proof.
  induction schema as [checks| |values| |inner IH|brand inner IH|item IH|shape IH]
    using zschema_nested_ind; intros path path' data.
  - destruct data; cbn [_parse snd]; try done.
    destruct (string_issues path checks s) eqn:Hs.
    + by rewrite (string_issues_nil_path path path').
    + destruct (string_issues path' checks s) eqn:Hs'; [|done].
      by rewrite (string_issues_nil_path path' path) in Hs.
  - by destruct data.
  - destruct data; cbn [_parse snd]; try done. by case_bool_decide.
  - done.
  - destruct data; cbn [_parse]; try apply IH. done.
  - apply IH.
  - destruct data; cbn [_parse snd]; try done.
    f_equal. apply imap_snd_ext. intros i x. apply IH.
  - destruct data as [| | | | | |o]; try done. rewrite !_parse_object. cbn [snd].
    f_equal. rewrite !parse_shape_pairs. apply Forall_fmap_ext.
    eapply Forall_impl; [exact IH|]. cbn. intros [key validator] Hv. cbn [fst snd].
    f_equal. apply Hv.
Qed.

Lemma accepts_path schema path data :
  is_OK (_parse schema path data).2 = accepts schema data.
Proof. unfold accepts. by rewrite (parse_outcome_path schema path []). Qed.

(** What each kind of schema accepts. *)
Lemma accepts_string checks data :
  accepts (ZString checks) data = true
  ↔ ∃ s, data = JStr s ∧ Forall (λ c, check_test c s = true) checks.
Proof.
  unfold accepts. destruct data; cbn [_parse snd is_OK]; try by (split; [|intros (? & ? & ?)]).
  pose proof (string_issues_nil [] checks s) as Hnil.
  destruct (string_issues [] checks s); cbn [is_OK]; split; try done.
  - intros _. exists s. split; [done|]. by apply Hnil.
  - intros (? & [= <-] & Hall). by apply Hnil in Hall.
Qed.

Lemma accepts_number data : accepts ZNumber data = true ↔ ∃ q, data = JNum q.
Proof.
  unfold accepts. destruct data; cbn; split; try done; try by intros [? ?]. by eexists.
Qed.

Lemma accepts_optional inner data :
  accepts (ZOptional inner) data = true ↔ data = JUndefined ∨ accepts inner data = true.
Proof.
  unfold accepts. destruct data; cbn [_parse snd is_OK]; split; try done; auto;
    by intros [|].
Qed.

Lemma accepts_array item data :
  accepts (ZArray item) data = true
  ↔ ∃ items, data = JArr items ∧ Forall (λ x, accepts item x = true) items.
Proof.
  unfold accepts at 1.
  destruct data as [| | | | |items|]; cbn [_parse snd is_OK]; try by (split; [|intros (? & ? & ?)]).
  rewrite mergeArray_is_OK. cbn [negb andb].
  rewrite (forallb_imap_OK _ (λ x, accepts item x = true)); [|intros; by rewrite accepts_path].
  split; [by eexists|]. by intros (? & [= <-] & ?).
Qed.

Lemma accepts_object shape data :
  accepts (ZObject shape) data = true
  ↔ ∃ o, data = JObj o ∧ Forall (λ ks, accepts ks.2 (get_prop o ks.1) = true) shape.
Proof.
  unfold accepts at 1.
  destruct data as [| | | | | |o]; try by (split; [|intros (? & ? & ?)]).
  rewrite _parse_object. cbn [snd]. rewrite mergeObjectSync_is_OK. cbn [negb andb].
  rewrite parse_shape_pairs.
  transitivity (Forall (λ ks, accepts ks.2 (get_prop o ks.1) = true) shape).
  - induction shape as [|[key validator] rest IH]; [by split; [constructor|]|].
    cbn [fmap list_fmap forallb pair_value fst snd].
    by rewrite andb_true_iff, Forall_cons, IH, accepts_path.
  - split; [by eexists|]. by intros (? & [= <-] & ?).
Qed.
End acceptance.

Section schemas.
Context `{StringFormats}.

(** A brand changes nothing at run time. *)
Lemma accepts_branded brand inner data :
  accepts (ZBranded brand inner) data = accepts inner data.
Proof. done. Qed.

Lemma accepts_plain_string data : accepts (ZString []) data = true ↔ ∃ s, data = JStr s.
Proof.
  rewrite accepts_string. split; [intros (s & -> & _); by eexists|].
  intros [s ->]. exists s. split; [done|constructor].
Qed.

Lemma accepts_checked_string c data :
  accepts (ZString [c]) data = true ↔ ∃ s, data = JStr s ∧ check_test c s = true.
Proof.
  rewrite accepts_string. split; intros (s & -> & Hc); exists s; (split; [done|]).
  - by inversion Hc.
  - by repeat constructor.
Qed.

(** X7: [articleSchema] accepts exactly the objects with a string [id]
    that passes the uuid test and an [attributes] object whose [title],
    [content] and [slug] are strings and whose [publishedAt], [createdAt]
    and [updatedAt] are strings that pass the datetime test; other
    properties do not matter. *)
Theorem articleSchema_accepts_articles a :
  accepts articleSchema a = true ↔ is_article a.
Proof.
  unfold articleSchema, ContentIdSchema, is_article. rewrite accepts_object. split.
  - intros (o & -> & Hall). revert Hall. rewrite !Forall_cons. cbn [fst snd].
    rewrite accepts_branded, accepts_checked_string, accepts_object.
    intros ((id & Hid & Huuid) & (attrs & Hattrs & Hall) & _). revert Hall.
    rewrite !Forall_cons. cbn [fst snd].
    rewrite !accepts_plain_string, !accepts_checked_string.
    intros ([title Ht] & [content Hc] & [slug Hs] & (pa & Hpa & Hpat) & (ca & Hca & Hcat)
            & (ua & Hua & Huat) & _).
    exists id, title, content, slug, pa, ca, ua. cbn [get_in]. rewrite Hattrs.
    by split_and!.
  - intros (id & title & content & slug & pa & ca & ua & Hid & Huuid & Ht & Hc & Hs
            & Hpa & Hpat & Hca & Hcat & Hua & Huat).
    destruct a as [| | | | | |o]; try done. exists o. split; [done|].
    cbn [get_in] in *. rewrite !Forall_cons. cbn [fst snd].
    rewrite accepts_branded, accepts_checked_string, accepts_object.
    split; [by exists id|]. split; [|constructor].
    destruct (get_prop o "attributes") as [| | | | | |attrs]; try done.
    exists attrs. split; [done|]. rewrite !Forall_cons. cbn [fst snd].
    rewrite !accepts_plain_string, !accepts_checked_string.
    split_and!; try by eexists. constructor.
Qed.

(** X5: [strapiCollectionSchema(itemSchema)] accepts exactly the objects
    whose [data] is an array of values the item schema accepts, an empty
    array included, and whose [meta.pagination] has the four numbers; other
    properties, and what the numbers are, do not matter. *)
Theorem collection_schema_accepts itemSchema envelope :
  accepts (strapiCollectionSchema itemSchema) envelope = true
  ↔ is_Some (envelope_counts envelope)
    ∧ ∃ items, get_in ["data"] envelope = JArr items
               ∧ Forall (λ x, accepts itemSchema x = true) items.
Proof.
  unfold strapiCollectionSchema, paginationSchema, envelope_counts.
  rewrite accepts_object. split.
  - intros (o & -> & Hall). revert Hall. rewrite !Forall_cons. cbn [fst snd].
    rewrite accepts_array, accepts_object.
    intros ((items & Hdata & Hitems) & (m & Hmeta & Hall) & _). revert Hall.
    rewrite !Forall_cons. cbn [fst snd]. rewrite accepts_object.
    intros ((p & Hpag & Hall) & _). revert Hall.
    rewrite !Forall_cons. cbn [fst snd]. rewrite !accepts_number.
    intros ([q1 H1] & [q2 H2] & [q3 H3] & [q4 H4] & _).
    cbn [get_in]. rewrite Hdata, Hmeta, Hpag, H1, H2, H3, H4. split; [by eexists|].
    by exists items.
  - intros [Hcounts (items & Hdata & Hitems)].
    destruct envelope as [| | | | | |o]; try done. exists o. split; [done|].
    cbn [get_in] in *. rewrite Hdata in Hcounts.
    rewrite !Forall_cons. cbn [fst snd]. rewrite accepts_array, accepts_object.
    split; [by exists items|]. split; [|constructor].
    destruct (get_prop o "meta") as [| | | | | |m]; try by destruct Hcounts.
    exists m. split; [done|]. rewrite !Forall_cons. cbn [fst snd]. rewrite accepts_object.
    split; [|constructor].
    destruct (get_prop m "pagination") as [| | | | | |p]; try by destruct Hcounts.
    exists p. split; [done|]. rewrite !Forall_cons. cbn [fst snd]. rewrite !accepts_number.
    destruct (get_prop p "page"); try by destruct Hcounts.
    destruct (get_prop p "pageSize"); try by destruct Hcounts.
    destruct (get_prop p "pageCount"); try by destruct Hcounts.
    destruct (get_prop p "total"); try by destruct Hcounts.
    split_and!; try by eexists. constructor.
Qed.

(** X6: [strapiSingleSchema(itemSchema)] accepts exactly the objects whose
    [data] the item schema accepts and whose [meta] is an object: a body
    without [meta] is rejected, whatever its [data]. *)
Theorem single_schema_accepts itemSchema response_body :
  accepts (strapiSingleSchema itemSchema) response_body = true
  ↔ accepts itemSchema (get_in ["data"] response_body) = true
    ∧ ∃ meta, get_in ["meta"] response_body = JObj meta.
Proof.
  unfold strapiSingleSchema. rewrite accepts_object. split.
  - intros (o & -> & Hall). revert Hall. rewrite !Forall_cons. cbn [fst snd get_in].
    rewrite accepts_object. intros (Hdata & (m & Hmeta & _) & _). split; [done|]. by exists m.
  - intros [Hdata [m Hmeta]].
    destruct response_body as [| | | | | |o]; try done. exists o. split; [done|].
    cbn [get_in] in *. rewrite !Forall_cons. cbn [fst snd]. rewrite accepts_object.
    split_and!; [done| |constructor]. exists m. split; [done|constructor].
Qed.
End schemas.

(** ** The validated client and its callers *)

(** [safeParse] gives a value exactly for an [OK] outcome. *)
Lemma safeParse_inr_OK `{StringFormats} schema data value :
  safeParse schema data = inr value ↔ (_parse schema [] data).2 = OK value.
Proof.
  unfold safeParse. destruct (_parse schema [] data) as [issues [v|v|]]; cbn [snd];
    split; try done; by intros [= <-].
Qed.

(** X2: a failure of [fetchFromStrapi] is of one of four kinds, each with
    its cause: the [TypeError] of a request without response, the
    [SyntaxError] of a successful response that is not JSON, the
    [StrapiError] with the status and status text of a response whose
    status is not a success, and the [StrapiError] with status 500 and the
    issues of a JSON body the schema rejects. A [ZodError] never reaches the
    caller unwrapped. *)
Theorem fetchFromStrapi_failure_kinds `{StringFormats}
    (backend : Backend) e path schema options w error :
  (fetchFromStrapi backend e path schema options w).1 = inl error →
  (∃ kind,
     error = failure_of kind
     ∧ match kind with
       | Transport =>
           backend (request_url e path) (request_init e options) = NetworkFailure
       | NotJson =>
           ∃ response,
             backend (request_url e path) (request_init e options) = Responds response
             ∧ ok response = true ∧ body response = None
       | HttpStatus code text =>
           ∃ response,
             backend (request_url e path) (request_init e options) = Responds response
             ∧ ok response = false ∧ code = status response ∧ text = statusText response
       | Validation issues =>
           ∃ response rawData,
             backend (request_url e path) (request_init e options) = Responds response
             ∧ ok response = true ∧ body response = Some rawData
             ∧ safeParse schema rawData = inl issues ∧ issues ≠ []
       end)
  ∧ ∀ issues, error ≠ ZodError issues.
Proof.
  rewrite fetchFromStrapi_run. cbn [fst].
  destruct (backend _ _) as [response|] eqn:Hresp.
  - destruct (ok response) eqn:Hok.
    + destruct (body response) as [rawData|] eqn:Hbody.
      * destruct (safeParse schema rawData) as [issues|value] eqn:Hparse; [|done].
        intros [= <-]. split; [|done]. exists (Validation issues). split; [done|].
        exists response, rawData. split_and!; try done. by eapply safeParse_issues.
      * intros [= <-]. split; [|done]. exists NotJson. split; [done|]. by exists response.
    + intros [= <-]. split; [|done].
      exists (HttpStatus (status response) (statusText response)). split; [done|].
      by exists response.
  - intros [= <-]. split; [|done]. by exists Transport.
Qed.

(** X3: for a schema built from the constructors of the schemas of the
    sources (a [zschema]) whose object shapes have distinct keys, a value
    [fetchFromStrapi] returned is itself accepted by the schema, parses to
    itself, and has no undeclared property left. *)
Theorem returned_value_revalidates `{StringFormats}
    (backend : Backend) e path schema options w value :
  distinct_keys schema = true →
  (fetchFromStrapi backend e path schema options w).1 = inr value →
  safeParse schema value = inr value ∧ strip schema value = value.
Proof.
  intros Hkeys (response & rawData & _ & _ & _ & _ & Hparse)%fetchFromStrapi_returns_only_validated.
  apply safeParse_inr_OK in Hparse.
  assert ((_parse schema [] value).2 = OK value) as Hagain by by eapply parse_again.
  split; [by apply safeParse_inr_OK|].
  symmetry. eapply parse_strip. by rewrite Hagain.
Qed.

(** X8: whatever [getArticles] or [getArticle] returns is a collection
    envelope: it has the four pagination numbers, and its [data] is an
    array of articles, each with a uuid [id], string [title], [content]
    and [slug], and datetime [publishedAt], [createdAt] and [updatedAt]. *)
Theorem getArticles_returns_articles `{StringFormats} (backend : Backend) e w value :
  (getArticles backend e w).1 = inr value
  ∨ (∃ slug, (getArticle backend e slug w).1 = inr value) →
  is_Some (envelope_counts value)
  ∧ ∃ items, get_in ["data"] value = JArr items ∧ Forall is_article items.
Proof.
  intros Hrun.
  assert (∃ path, (fetchFromStrapi backend e path (strapiCollectionSchema articleSchema)
                     no_options w).1 = inr value) as [path Hpath].
  { destruct Hrun as [Hrun|[slug Hrun]]; by eexists. }
  apply returned_value_revalidates in Hpath as [Hparse _]; [|done].
  apply safeParse_inr_OK in Hparse.
  assert (accepts (strapiCollectionSchema articleSchema) value = true) as Hacc
    by (unfold accepts; by rewrite Hparse).
  apply collection_schema_accepts in Hacc as [Hcounts (items & Hdata & Hitems)].
  split; [done|]. exists items. split; [done|].
  eapply Forall_impl; [done|]. intros a. apply articleSchema_accepts_articles.
Qed.

(** X9: a slug that matches nothing is no error: when the backend answers
    with an empty [data] array, [getArticle] returns that envelope, for
    every slug and whatever the pagination numbers are. *)
Theorem getArticle_without_match `{StringFormats} (backend : Backend) e slug w response
    page pageSize pageCount total :
  backend (request_url e ("/articles?filters[slug][$eq]=" +:+ slug +:+ "&populate=*"))
    (request_init e no_options) = Responds response →
  ok response = true →
  body response = Some (empty_page page pageSize pageCount total) →
  (getArticle backend e slug w).1 = inr (empty_page page pageSize pageCount total).
Proof.
  intros Hresp Hok Hbody. unfold getArticle.
  rewrite fetchFromStrapi_run, Hresp, Hok, Hbody. cbn [fst].
  reflexivity.
Qed.

Section configuration.
Context `{StringFormats}.

(** X11: [env] is a configuration exactly when NODE_ENV is set to one of
    the three modes and NEXT_PUBLIC_STRAPI_URL is set to a string that
    passes the URL test; the configuration then holds these two and the
    token variable as it is. Any other mode, and a URL that fails the test,
    make it throw. *)
Theorem env_succeeds_exactly_when_valid (process_env : gmap string string) e :
  env process_env = inr e
  ↔ process_env !! "NODE_ENV" = Some (NODE_ENV e)
    ∧ NODE_ENV e ∈ ["development"; "test"; "production"]
    ∧ process_env !! "NEXT_PUBLIC_STRAPI_URL" = Some (NEXT_PUBLIC_STRAPI_URL e)
    ∧ url_test (NEXT_PUBLIC_STRAPI_URL e) = true
    ∧ process_env !! "STRAPI_API_TOKEN" = STRAPI_API_TOKEN e.
Proof.
  split.
  - unfold env, parse, safeParse, env_object, envSchema.
    rewrite _parse_object. cbn [parse_shape]. rewrite !get_prop_env, !has_prop_env.
    destruct (process_env !! "NODE_ENV") as [mode|]; [|done].
    destruct (process_env !! "NEXT_PUBLIC_STRAPI_URL") as [url|];
      [|cbn [_parse snd]; case_bool_decide; done].
    cbn [_parse snd fst]. case_bool_decide as Hmode; [|done].
    unfold string_issues. cbn [omap list_omap check_test].
    destruct (url_test url) eqn:Hurl; [|by destruct (process_env !! "STRAPI_API_TOKEN")].
    destruct (process_env !! "STRAPI_API_TOKEN") as [token|];
      cbn; unfold get_prop; simplify_map_eq; by intros [= <-].
  - destruct e as [mode url token]. cbn [NODE_ENV NEXT_PUBLIC_STRAPI_URL STRAPI_API_TOKEN].
    intros (Hmode & Hin & Hurl & Htest & <-). by apply env_valid.
Qed.

(** X12: [env] depends on NODE_ENV, NEXT_PUBLIC_STRAPI_URL and
    STRAPI_API_TOKEN only: two environments that agree on these give the
    same configuration, or the same error. *)
Theorem env_reads_three_variables (process_env process_env' : gmap string string) :
  (∀ k, k ∈ ["NODE_ENV"; "NEXT_PUBLIC_STRAPI_URL"; "STRAPI_API_TOKEN"] →
        process_env !! k = process_env' !! k) →
  env process_env = env process_env'.
Proof.
  intros Hsame. unfold env, parse, safeParse, env_object, envSchema.
  rewrite !_parse_object. cbn [parse_shape]. rewrite !get_prop_env, !has_prop_env.
  rewrite !(Hsame "NODE_ENV"), !(Hsame "NEXT_PUBLIC_STRAPI_URL"), !(Hsame "STRAPI_API_TOKEN");
    [done|set_solver..].
Qed.
End configuration.

(** ** Requests, and the plain helper *)

(** The merged headers when the options have none: the content type, the
    bearer token when one is set and not empty, and nothing else. *)
Lemma merged_headers_without_option_headers e method body k :
  merged_headers e (mkInit method None body) !! k
  = if decide (k = "Content-Type") then Some "application/json"
    else if decide (k = "Authorization") then
      match STRAPI_API_TOKEN e with
      | None | Some "" => None
      | Some t => Some ("Bearer " +:+ t)
      end
    else None.
Proof.
  unfold merged_headers, authorization. cbn [init_headers default]. rewrite (left_id ∅ (∪)).
  destruct (decide (k = "Content-Type")) as [->|Hct];
    [|destruct (decide (k = "Authorization")) as [->|Hauth]];
    destruct (STRAPI_API_TOKEN e) as [[|c t]|]; rewrite ?(left_id ∅ (∪)).
  - apply lookup_singleton_eq.
  - by rewrite lookup_union_r.
  - apply lookup_singleton_eq.
  - by apply lookup_singleton_ne.
  - by apply lookup_union_Some_l, lookup_singleton_eq.
  - by apply lookup_singleton_ne.
  - by apply lookup_singleton_ne.
  - rewrite lookup_union_r by by apply lookup_singleton_ne. by apply lookup_singleton_ne.
  - by apply lookup_singleton_ne.
Qed.

(** X4: when the options carry no headers, the one request of
    [fetchFromStrapi] goes to the base URL followed by /api and the path,
    with the method and the body of the options, with Content-Type
    application/json, with Authorization Bearer and the token exactly when
    a token is set and not empty, and with no other header. *)
Theorem request_without_option_headers `{StringFormats}
    (backend : Backend) e path schema method body w :
  ∃ headers,
    requests (fetchFromStrapi backend e path schema (mkInit method None body) w).2
    = requests w ++ [(NEXT_PUBLIC_STRAPI_URL e +:+ "/api" +:+ path,
                      mkInit method (Some headers) body)]
    ∧ headers !! "Content-Type" = Some "application/json"
    ∧ headers !! "Authorization"
      = match STRAPI_API_TOKEN e with
        | None | Some "" => None
        | Some t => Some ("Bearer " +:+ t)
        end
    ∧ ∀ k, k ≠ "Content-Type" → k ≠ "Authorization" → headers !! k = None.
Proof.
  exists (merged_headers e (mkInit method None body)). split_and!.
  - rewrite fetchFromStrapi_world. unfold sent, request_url, request_init, spread_init.
    cbn [requests init_method init_headers init_body]. by destruct method, body.
  - by rewrite merged_headers_without_option_headers.
  - by rewrite merged_headers_without_option_headers.
  - intros k Hct Hauth. rewrite merged_headers_without_option_headers.
    by rewrite !decide_False.
Qed.

(** X10: [onSubmit] issues one POST to /api/contact-submissions whose body
    is the stringified [{ data }], with the JSON content type and the
    bearer token when one is set; it succeeds exactly when the response has
    a success status and a JSON body, whatever that body is: with
    [z.unknown()] it never fails validation. *)
Theorem onSubmit_posts_the_form `{StringFormats}
    (backend : Backend) (stringify : jsval → string) e data w :
  let url := NEXT_PUBLIC_STRAPI_URL e +:+ "/api/contact-submissions" in
  let sent_body := stringify (JObj {[ "data" := data ]}) in
  let run := onSubmit backend stringify e data w in
  ∃ headers,
    requests run.2 = requests w ++ [(url, mkInit (Some "POST") (Some headers) (Some sent_body))]
    ∧ headers !! "Content-Type" = Some "application/json"
    ∧ headers !! "Authorization"
      = match STRAPI_API_TOKEN e with
        | None | Some "" => None
        | Some t => Some ("Bearer " +:+ t)
        end
    ∧ (run.1 = inr ()
       ↔ ∃ response answer,
           backend url (mkInit (Some "POST") (Some headers) (Some sent_body)) = Responds response
           ∧ ok response = true ∧ body response = Some answer)
    ∧ ∀ issues, run.1 ≠ inl (failure_of (Validation issues)).
Proof.
  intros url sent_body run.
  exists (merged_headers e (mkInit (Some "POST") None (Some sent_body))).
  assert (run = ((λ r : exn + jsval, match r with inl err => inl err | inr _ => inr () end)
                   (fetchFromStrapi backend e "/contact-submissions" ZUnknown
                      (mkInit (Some "POST") None (Some sent_body)) w).1,
                 (fetchFromStrapi backend e "/contact-submissions" ZUnknown
                      (mkInit (Some "POST") None (Some sent_body)) w).2)) as ->.
  { subst run. unfold onSubmit, mbind, M_bind. fold sent_body.
    by destruct (fetchFromStrapi _ _ _ _ _ _) as [[err|v] w']. }
  cbn [fst snd]. rewrite fetchFromStrapi_run. cbn [fst snd].
  change (request_url e "/contact-submissions") with url.
  change (request_init e (mkInit (Some "POST") None (Some sent_body)))
    with (mkInit (Some "POST")
            (Some (merged_headers e (mkInit (Some "POST") None (Some sent_body))))
            (Some sent_body)).
  split_and!.
  - done.
  - by rewrite merged_headers_without_option_headers.
  - by rewrite merged_headers_without_option_headers.
  - destruct (backend _ _) as [response|].
    + destruct (ok response) eqn:Hok.
      * destruct (body response) as [answer|] eqn:Hbody.
        -- split; [|done]. intros _. by exists response, answer.
        -- split; [done|]. intros (r & a & [= <-] & _ & Ha). by rewrite Hbody in Ha.
      * split; [done|]. intros (r & a & [= <-] & Hr & _). by rewrite Hok in Hr.
    + split; [done|]. by intros (r & a & Hr & _).
  - intros issues. destruct (backend _ _) as [response|]; [|done].
    destruct (ok response); [|done]. by destruct (body response).
Qed.

(** X13: on the same successful JSON response, [fetchAPI] returns the body
    as it is, whatever its shape, while [fetchFromStrapi], for a schema
    built from the constructors of the schemas of the sources (a
    [zschema]), returns the
    body without its undeclared properties when the schema accepts it and
    throws the validation error otherwise. *)
Theorem fetchAPI_returns_the_unvalidated_body `{StringFormats}
    (backend : Backend) process_env e path schema options options' w w' response rawData :
  backend (request_url e path) (request_init e options) = Responds response →
  backend (STRAPI_URL process_env +:+ "/api" +:+ path)
    (spread_init (mkInit None (Some {[ "Content-Type" := "application/json" ]}) None) options')
  = Responds response →
  ok response = true →
  body response = Some rawData →
  (fetchAPI backend process_env path options' w').1 = inr rawData
  ∧ (fetchFromStrapi backend e path schema options w).1
    = if accepts schema rawData then inr (strip schema rawData)
      else inl (failure_of (Validation (_parse schema [] rawData).1)).
Proof.
  intros Hresp Hresp' Hok Hbody. split.
  - pose proof (fetchAPI_run backend process_env path options' w') as Hrun.
    cbv zeta in Hrun. by rewrite Hrun, Hresp', Hok, Hbody.
  - rewrite fetchFromStrapi_run, Hresp, Hok, Hbody. cbn [fst].
    unfold accepts, safeParse.
    destruct (_parse schema [] rawData) as [issues r] eqn:Hr. cbn [fst snd].
    destruct r as [v|v|]; cbn [is_OK failure_of]; try done.
    f_equal. eapply parse_strip. by rewrite Hr.
Qed.

(** X14: a failure of [fetchAPI] is a [TypeError] (no response), a
    [SyntaxError] (successful response that is not JSON), each after one
    console record, or for a response whose status is not a success an
    [Error] whose message has the status code and not the status text,
    after two console records: the status with its text, then the error. *)
Theorem fetchAPI_failure_kinds (backend : Backend) process_env path options w error :
  let url := STRAPI_URL process_env +:+ "/api" +:+ path in
  let init :=
    spread_init (mkInit None (Some {[ "Content-Type" := "application/json" ]}) None) options in
  let run := fetchAPI backend process_env path options w in
  let caught := [LogStr "Strapi API fetch error:"; LogExn error] in
  run.1 = inl error →
  (error = TypeError ∧ backend url init = NetworkFailure
   ∧ console run.2 = console w ++ [caught])
  ∨ (error = SyntaxError
     ∧ (∃ response, backend url init = Responds response ∧ ok response = true
                    ∧ body response = None)
     ∧ console run.2 = console w ++ [caught])
  ∨ (∃ response,
       backend url init = Responds response ∧ ok response = false
       ∧ error = Error ("Strapi API error: " +:+ pretty (status response))
       ∧ console run.2
         = console w
           ++ [[LogStr ("Strapi API error: " +:+ pretty (status response)
                        +:+ " " +:+ statusText response)]; caught]).
Proof.
  intros url init run caught. subst run.
  pose proof (fetchAPI_run backend process_env path options w) as Hrun.
  cbv zeta in Hrun. rewrite Hrun. clear Hrun. fold url init.
  destruct (backend url init) as [response|].
  - destruct (ok response) eqn:Hok.
    + destruct (body response) eqn:Hbody; [done|].
      intros [= <-]. right. left. split_and!; [done| |done]. by exists response.
    + intros [= <-]. right. right. exists response. split_and!; [done..|].
      cbn [snd console]. by rewrite <-(assoc_L (++)).
  - intros [= <-]. by left.
Qed.

(** X15: the one request of [fetchAPI] goes to the base URL followed by
    /api and the path, with the method and body of the options. The base
    URL is NEXT_PUBLIC_STRAPI_API_URL when that is set and not empty, and
    http://localhost:1337 otherwise, so it is never empty. The headers are
    those of the options when they have any, and Content-Type
    application/json alone otherwise. *)
Theorem fetchAPI_request (backend : Backend) (process_env : gmap string string)
    path options w :
  ∃ base headers,
    requests (fetchAPI backend process_env path options w).2
    = requests w ++ [(base +:+ "/api" +:+ path,
                      mkInit (init_method options) (Some headers) (init_body options))]
    ∧ base ≠ ""
    ∧ (∀ url, process_env !! "NEXT_PUBLIC_STRAPI_API_URL" = Some url → url ≠ "" → base = url)
    ∧ (process_env !! "NEXT_PUBLIC_STRAPI_API_URL" = None
       ∨ process_env !! "NEXT_PUBLIC_STRAPI_API_URL" = Some "" →
       base = "http://localhost:1337")
    ∧ headers = default {[ "Content-Type" := "application/json" ]} (init_headers options).
Proof.
  exists (STRAPI_URL process_env),
    (default {[ "Content-Type" := "application/json" ]} (init_headers options)).
  split_and!.
  - pose proof (fetchAPI_run backend process_env path options w) as Hrun.
    cbv zeta in Hrun. rewrite Hrun. clear Hrun.
    assert (spread_init (mkInit None (Some {[ "Content-Type" := "application/json" ]}) None)
              options
            = mkInit (init_method options)
                (Some (default {[ "Content-Type" := "application/json" ]} (init_headers options)))
                (init_body options)) as ->.
    { unfold spread_init. cbn [init_method init_headers init_body].
      by destruct (init_method options), (init_headers options), (init_body options). }
    destruct (backend _ _) as [response|]; [|done].
    destruct (ok response); [|done]. by destruct (body response).
  - unfold STRAPI_URL. by destruct (process_env !! _) as [[|c url]|].
  - intros url Hurl Hne. unfold STRAPI_URL. rewrite Hurl. by destruct url.
  - unfold STRAPI_URL. by intros [->| ->].
  - done.
Qed.

(** X16: the two clients read different variables: in a process whose
    environment [env] accepts and in which NEXT_PUBLIC_STRAPI_API_URL is not
    set, [fetchFromStrapi] sends to NEXT_PUBLIC_STRAPI_URL and [fetchAPI]
    to http://localhost:1337. *)
Theorem clients_read_different_variables `{StringFormats}
    (backend : Backend) (process_env : gmap string string) e path schema w :
  env process_env = inr e →
  process_env !! "NEXT_PUBLIC_STRAPI_API_URL" = None →
  ∃ url init init',
    process_env !! "NEXT_PUBLIC_STRAPI_URL" = Some url
    ∧ requests (fetchFromStrapi backend e path schema no_options w).2
      = requests w ++ [(url +:+ "/api" +:+ path, init)]
    ∧ requests (fetchAPI backend process_env path no_options w).2
      = requests w ++ [("http://localhost:1337/api" +:+ path, init')].
Proof.
  intros (_ & _ & Hurl & _ & _)%env_succeeds_exactly_when_valid Hunset.
  destruct (fetchAPI_request backend process_env path no_options w)
    as (base & headers & Hreq & _ & _ & Hdefault & _).
  rewrite (Hdefault (or_introl Hunset)) in Hreq.
  eexists _, _, _. split_and!; [done| |exact Hreq].
  by rewrite fetchFromStrapi_world.
Qed.

(** ** The added properties at concrete inputs *)

(** The value of the articles scenario comes from a validated body. *)
Lemma articles_scenario_value_is_validated :
  ∃ response rawData,
    Scenario.always (Scenario.ok_json Scenario.articles_body)
      (request_url Scenario.local_env "/articles?populate=*")
      (request_init Scenario.local_env no_options) = Responds response
    ∧ ok response = true
    ∧ body response = Some rawData
    ∧ accepts (H := Formats.zod3) (strapiCollectionSchema articleSchema) rawData = true
    ∧ safeParse (H := Formats.zod3) (strapiCollectionSchema articleSchema) rawData
      = inr Scenario.articles_body.
Proof.
  exact (fetchFromStrapi_returns_only_validated (H := Formats.zod3)
           (Scenario.always (Scenario.ok_json Scenario.articles_body))
           Scenario.local_env "/articles?populate=*" (strapiCollectionSchema articleSchema)
           no_options initial Scenario.articles_body eq_refl).
Defined.

(** The failure of the 404 scenario is of a kind. *)
Lemma not_found_failure_has_a_kind :
  ∃ kind, StrapiError "Strapi API error: Not Found" 404 None = failure_of kind.
Proof.
  destruct (proj1 (fetchFromStrapi_failure_kinds (H := Formats.zod3)
                     (Scenario.always Scenario.not_found) Scenario.local_env
                     "/articles?populate=*" (strapiCollectionSchema articleSchema)
                     no_options initial (StrapiError "Strapi API error: Not Found" 404 None)
                     eq_refl)) as (kind & Hkind & _).
  by exists kind.
Defined.

(** The value of the articles scenario parses to itself. *)
Lemma articles_scenario_value_revalidates :
  safeParse (H := Formats.zod3) (strapiCollectionSchema articleSchema) Scenario.articles_body
  = inr Scenario.articles_body
  ∧ strip (strapiCollectionSchema articleSchema) Scenario.articles_body
    = Scenario.articles_body.
Proof.
  exact (returned_value_revalidates (H := Formats.zod3)
           (Scenario.always (Scenario.ok_json Scenario.articles_body))
           Scenario.local_env "/articles?populate=*" (strapiCollectionSchema articleSchema)
           no_options initial Scenario.articles_body eq_refl eq_refl).
Defined.

(** [getArticles] in the articles scenario. *)
Lemma getArticles_scenario_returns_articles :
  is_Some (envelope_counts Scenario.articles_body)
  ∧ ∃ items, get_in ["data"] Scenario.articles_body = JArr items
             ∧ Forall (is_article (H := Formats.zod3)) items.
Proof.
  exact (getArticles_returns_articles (H := Formats.zod3)
           (Scenario.always (Scenario.ok_json Scenario.articles_body))
           Scenario.local_env initial Scenario.articles_body (or_introl eq_refl)).
Defined.

(** [getArticle] for a slug no article has. *)
Lemma getArticle_no_such_article :
  (getArticle (H := Formats.zod3)
     (Scenario.always
        (Scenario.ok_json (empty_page (inject_Z 1) (inject_Z 25) (inject_Z 0) (inject_Z 0))))
     Scenario.local_env "no-such-article" initial).1
  = inr (empty_page (inject_Z 1) (inject_Z 25) (inject_Z 0) (inject_Z 0)).
Proof.
  exact (getArticle_without_match (H := Formats.zod3)
           (Scenario.always
              (Scenario.ok_json (empty_page (inject_Z 1) (inject_Z 25) (inject_Z 0) (inject_Z 0))))
           Scenario.local_env "no-such-article" initial
           (Scenario.ok_json (empty_page (inject_Z 1) (inject_Z 25) (inject_Z 0) (inject_Z 0)))
           (inject_Z 1) (inject_Z 25) (inject_Z 0) (inject_Z 0) eq_refl eq_refl eq_refl).
Defined.

(** PATH does not matter to [env]. *)
Lemma env_ignores_PATH :
  env (H := Formats.zod3) Scenario.complete_process_env
  = env (H := Formats.zod3) Deployment.bare_process_env.
Proof.
  apply (env_reads_three_variables (H := Formats.zod3)
           Scenario.complete_process_env Deployment.bare_process_env).
  intros k Hk.
  repeat (apply elem_of_cons in Hk as [->|Hk]); [reflexivity..|by apply elem_of_nil in Hk].
Defined.

(** An article with an undeclared attribute, through both clients. *)
Lemma both_clients_on_an_article_with_author :
  (fetchAPI (Scenario.always (Scenario.ok_json (Scenario.single Scenario.article_with_author)))
     ∅ "/articles/1" no_options initial).1
  = inr (Scenario.single Scenario.article_with_author)
  ∧ (fetchFromStrapi (H := Formats.zod3)
       (Scenario.always (Scenario.ok_json (Scenario.single Scenario.article_with_author)))
       Scenario.local_env "/articles/1" (strapiSingleSchema articleSchema) no_options initial).1
    = if accepts (H := Formats.zod3) (strapiSingleSchema articleSchema)
           (Scenario.single Scenario.article_with_author)
      then inr (strip (strapiSingleSchema articleSchema)
                  (Scenario.single Scenario.article_with_author))
      else inl (failure_of
                  (Validation (_parse (H := Formats.zod3) (strapiSingleSchema articleSchema) []
                                 (Scenario.single Scenario.article_with_author)).1)).
Proof.
  exact (fetchAPI_returns_the_unvalidated_body (H := Formats.zod3)
           (Scenario.always (Scenario.ok_json (Scenario.single Scenario.article_with_author)))
           ∅ Scenario.local_env "/articles/1" (strapiSingleSchema articleSchema)
           no_options no_options initial initial
           (Scenario.ok_json (Scenario.single Scenario.article_with_author))
           (Scenario.single Scenario.article_with_author)
           eq_refl eq_refl eq_refl eq_refl).
Defined.

(** A 404 under [fetchAPI]: two records. *)
Lemma fetchAPI_logs_a_404_twice :
  ∃ response,
    ok response = false
    ∧ console (fetchAPI (Scenario.always Scenario.not_found) ∅ "/posts?populate=*"
                 no_options initial).2
      = [[LogStr "Strapi API error: 404 Not Found"];
         [LogStr "Strapi API fetch error:"; LogExn (Error "Strapi API error: 404")]].
Proof.
  destruct (fetchAPI_failure_kinds (Scenario.always Scenario.not_found) ∅ "/posts?populate=*"
              no_options initial (Error "Strapi API error: 404") eq_refl)
    as [(Herr & _)|[(Herr & _)|(response & Hresp & Hok & _ & Hconsole)]];
    [discriminate Herr..|].
  exists response. split; [exact Hok|].
  injection Hresp as <-. exact Hconsole.
Defined.

(** A hosted deployment: the validated client goes to the hosted backend,
    the plain helper to the local one. *)
Lemma hosted_deployment_splits_the_clients :
  ∃ url init init',
    Deployment.hosted_process_env !! "NEXT_PUBLIC_STRAPI_URL" = Some url
    ∧ requests (fetchFromStrapi (H := Formats.zod3) (λ _ _, NetworkFailure)
                  Deployment.hosted_env "/articles" ZUnknown no_options initial).2
      = requests initial ++ [(url +:+ "/api" +:+ "/articles", init)]
    ∧ requests (fetchAPI (λ _ _, NetworkFailure) Deployment.hosted_process_env "/articles"
                  no_options initial).2
      = requests initial ++ [("http://localhost:1337/api" +:+ "/articles", init')].
Proof.
  exact (clients_read_different_variables (H := Formats.zod3) (λ _ _, NetworkFailure)
           Deployment.hosted_process_env Deployment.hosted_env "/articles" ZUnknown initial
           eq_refl eq_refl).
Defined.
